(** * FCHL predictor: roster parsing, schedule derivation, player matching,
      projections and standings

    A shallow embedding of [data_loader.py] and [projections.py].

    Conventions of the embedding:
    - a Python [str] is a [string] whose characters are code points below
      256; the character classes below are Python's on that range;
    - a Python [int] is a [Z];
    - a Python [float] is a primitive binary64 [float], with the rounding
      of the hardware;
    - a Python [dict] that is only read or updated by key is a [gmap];
    - [ZeroDivisionError] is the one exception the arithmetic of
      [projections.py] can raise on numbers of ordinary size; it is a
      constructor of [result].  ([OverflowError], which Python raises when
      an [int] beyond the range of a double, about 1.8e308, meets a float,
      is outside the model: such an [int] becomes an infinity.) *)

From Stdlib Require Import Ascii String ZArith Floats Lia List Bool.
From Stdlib Require Import Sorted Permutation.
From stdpp Require Import base option list gmap strings fin_maps.

Set Warnings "-inexact-float".

Local Open Scope string_scope.
Local Open Scope Z_scope.

(* ===================================================================== *)
(** ** Python string primitives *)
(* ===================================================================== *)

Module PyStr.

Definition code (c : ascii) : nat := nat_of_ascii c.

Definition between (lo hi n : nat) : bool := (lo <=? n)%nat && (n <=? hi)%nat.

(** [str.isspace] on one character: TAB..CR, FS..US, SPACE, NEL, NBSP. *)
Definition isspace (c : ascii) : bool :=
  let n := code c in
  between 9 13 n || between 28 32 n || (n =? 133)%nat || (n =? 160)%nat.

(** [str.isdigit] on one character: 0-9 and the superscripts 2, 3, 1. *)
Definition isdigit_char (c : ascii) : bool :=
  let n := code c in
  between 48 57 n || (n =? 178)%nat || (n =? 179)%nat || (n =? 185)%nat.

(** Characters [int()] accepts as digits: the decimal digits only. *)
Definition isdecimal_char (c : ascii) : bool := between 48 57 (code c).

Definition isupper_char (c : ascii) : bool :=
  let n := code c in
  between 65 90 n || between 192 214 n || between 216 222 n.

Definition islower_char (c : ascii) : bool :=
  let n := code c in
  between 97 122 n || (n =? 170)%nat || (n =? 181)%nat || (n =? 186)%nat
  || between 223 246 n || between 248 255 n.

Definition isalpha_char (c : ascii) : bool := isupper_char c || islower_char c.

Fixpoint all_chars (p : ascii -> bool) (s : string) : bool :=
  match s with
  | EmptyString => true
  | String c s' => p c && all_chars p s'
  end.

Fixpoint any_char (p : ascii -> bool) (s : string) : bool :=
  match s with
  | EmptyString => false
  | String c s' => p c || any_char p s'
  end.

Definition nonempty (s : string) : bool :=
  match s with EmptyString => false | String _ _ => true end.

(** [s.isdigit()], [s.isalpha()], [s.isupper()]. *)
Definition isdigit (s : string) : bool := nonempty s && all_chars isdigit_char s.
Definition isalpha (s : string) : bool := nonempty s && all_chars isalpha_char s.
Definition isupper (s : string) : bool :=
  any_char isupper_char s && negb (any_char islower_char s).

(** [s.strip()]. *)
Fixpoint lstrip (s : string) : string :=
  match s with
  | EmptyString => EmptyString
  | String c s' => if isspace c then lstrip s' else s
  end.

Fixpoint rstrip (s : string) : string :=
  match s with
  | EmptyString => EmptyString
  | String c s' =>
      match rstrip s' with
      | EmptyString => if isspace c then EmptyString else String c EmptyString
      | r => String c r
      end
  end.

Definition strip (s : string) : string := lstrip (rstrip s).

(** [s.split()]: the maximal runs of non-whitespace characters. *)
Definition starts_token (s : string) : bool :=
  match s with
  | EmptyString => false
  | String c _ => negb (isspace c)
  end.

Fixpoint split (s : string) : list string :=
  match s with
  | EmptyString => []
  | String c s' =>
      if isspace c then split s'
      else if starts_token s' then
        match split s' with
        | t :: ts => String c t :: ts
        | [] => [String c EmptyString]
        end
      else String c EmptyString :: split s'
  end.

(** [sep.join(l)]. *)
Definition join (sep : string) (l : list string) : string := String.concat sep l.

(** Truthiness of a string. *)
Definition truthy (s : string) : bool := nonempty s.

(** [int(s)] for a string: surrounding whitespace, an optional sign, then
    decimal digits in which single underscores may separate digits.
    [None] stands for [ValueError].  (The interpreter's configurable cap on
    the number of digits, 4300 by default in recent versions, is left out.) *)
Definition digit_val (c : ascii) : Z := Z.of_nat (code c - 48).

Fixpoint int_digits (acc : Z) (after_digit : bool) (s : string) : option Z :=
  match s with
  | EmptyString => if after_digit then Some acc else None
  | String c s' =>
      if isdecimal_char c then int_digits (10 * acc + digit_val c) true s'
      else if (code c =? 95)%nat && after_digit then
        match s' with
        | String c' _ => if isdecimal_char c' then int_digits acc false s' else None
        | EmptyString => None
        end
      else None
  end.

Definition int (s : string) : option Z :=
  match strip s with
  | String "+" s' => int_digits 0 false s'
  | String "-" s' => Z.opp <$> int_digits 0 false s'
  | s' => int_digits 0 false s'
  end.

End PyStr.

(** Python slicing [l[i:j]] with the negative indices counted from the end
    and both bounds clamped to the list. *)
Definition slice_index (len i : Z) : nat :=
  Z.to_nat (Z.min len (Z.max 0 (if i <? 0 then i + len else i))).

Definition py_slice {A} (i j : Z) (l : list A) : list A :=
  let n := Z.of_nat (length l) in
  take (slice_index n j - slice_index n i) (drop (slice_index n i) l).

(* ===================================================================== *)
(** ** data_loader.py: the roster name parser *)
(* ===================================================================== *)

(** [parse_player_name], as in the source. *)
Definition parse_player_name (raw : string) : string * string :=
  let parts := PyStr.split (PyStr.strip raw) in
  if (length parts <? 2)%nat then ("", raw)
  else
    let position := hd "" parts in
    let suffix := List.last parts "" in
    let is_suffix :=
      PyStr.isdigit suffix
      || ((String.length suffix =? 1)%nat && PyStr.isalpha suffix && PyStr.isupper suffix) in
    let name_parts :=
      if is_suffix && (2 <? length parts)%nat then py_slice 1 (-1) parts
      else drop 1 parts in
    (position, PyStr.join " " name_parts).

(** The rule of the specification, in its own words: the first token is the
    position; the last token is a suffix when it is entirely numeric or a
    single uppercase letter; it is stripped when at least one name token
    remains without it; with fewer than two tokens the position is empty and
    the whole string is the name. *)
Definition entirely_numeric (tok : string) : bool := PyStr.isdigit tok.

Definition single_uppercase_letter (tok : string) : bool :=
  match tok with
  | String c EmptyString => PyStr.isupper_char c
  | _ => false
  end.

Definition parse_player_name_spec (raw : string) : string * string :=
  match PyStr.split raw with
  | [] | [_] => ("", raw)
  | position :: name_tokens =>
      let suffix := List.last name_tokens "" in
      let without_suffix := removelast name_tokens in
      let strip_it :=
        (entirely_numeric suffix || single_uppercase_letter suffix)
        && (1 <=? length without_suffix)%nat in
      (position, PyStr.join " " (if strip_it then without_suffix else name_tokens))
  end.

(* ===================================================================== *)
(** ** data_loader.py: the schedule derivation *)
(* ===================================================================== *)

Definition NHL_TEAM_TABLE : list (string * string) :=
  [ ("Anaheim Ducks", "ANA"); ("Boston Bruins", "BOS"); ("Buffalo Sabres", "BUF");
    ("Calgary Flames", "CGY"); ("Carolina Hurricanes", "CAR");
    ("Chicago Blackhawks", "CHI"); ("Colorado Avalanche", "COL");
    ("Columbus Blue Jackets", "CBJ"); ("Dallas Stars", "DAL");
    ("Detroit Red Wings", "DET"); ("Edmonton Oilers", "EDM");
    ("Florida Panthers", "FLA"); ("Los Angeles Kings", "LAK");
    ("Minnesota Wild", "MIN"); ("Montreal Canadiens", "MTL");
    ("Nashville Predators", "NSH"); ("New Jersey Devils", "NJD");
    ("New York Islanders", "NYI"); ("New York Rangers", "NYR");
    ("Ottawa Senators", "OTT"); ("Philadelphia Flyers", "PHI");
    ("Pittsburgh Penguins", "PIT"); ("San Jose Sharks", "SJS");
    ("Seattle Kraken", "SEA"); ("St. Louis Blues", "STL");
    ("Tampa Bay Lightning", "TBL"); ("Toronto Maple Leafs", "TOR");
    ("Utah Mammoth", "UTA"); ("Vancouver Canucks", "VAN");
    ("Vegas Golden Knights", "VGK"); ("Washington Capitals", "WSH");
    ("Winnipeg Jets", "WPG") ].

Definition NHL_TEAM_MAP : gmap string string := list_to_map NHL_TEAM_TABLE.

(** One goalie's tally in [goalie_stats]. *)
Record GoalieTally := mkTally { starts : Z; wins : Z; shutouts : Z }.

(** The three dictionaries [load_schedule] builds and returns. *)
Record ScheduleData := mkSchedule {
  team_completed : gmap string Z;
  team_remaining : gmap string Z;
  goalie_schedule_stats : gmap string GoalieTally
}.

Definition empty_schedule : ScheduleData := mkSchedule ∅ ∅ ∅.

(** [if abbr: counts[abbr] = counts.get(abbr, 0) + 1], where [abbr] is the
    result of [NHL_TEAM_MAP.get]. *)
Definition recognized (abbr : option string) : bool :=
  match abbr with
  | Some a => PyStr.truthy a
  | None => false
  end.

Definition count_game (abbr : option string) (counts : gmap string Z) : gmap string Z :=
  match abbr with
  | Some a => if PyStr.truthy a then <[a := default 0 (counts !! a) + 1]> counts else counts
  | None => counts
  end.

(** [_goalie_entry(name)]: the entry of [name] is created at zero on first
    touch; the dictionary after the call. *)
Definition _goalie_entry (name : string) (goalie_stats : gmap string GoalieTally)
  : gmap string GoalieTally :=
  match goalie_stats !! name with
  | Some _ => goalie_stats
  | None => <[name := mkTally 0 0 0]> goalie_stats
  end.

Definition add_start (t : GoalieTally) := mkTally (starts t + 1) (wins t) (shutouts t).
Definition add_win (t : GoalieTally) := mkTally (starts t) (wins t + 1) (shutouts t).
Definition add_shutout (t : GoalieTally) := mkTally (starts t) (wins t) (shutouts t + 1).

(** [_goalie_entry(name)[field] += 1]. *)
Definition bump (f : GoalieTally -> GoalieTally) (name : string)
    (goalie_stats : gmap string GoalieTally) : gmap string GoalieTally :=
  alter f name (_goalie_entry name goalie_stats).

(** The goalie tallies of one completed row whose scores parsed. *)
Definition goalie_row (visitor_goalie home_goalie : string) (v_score h_score : Z)
    (goalie_stats : gmap string GoalieTally) : gmap string GoalieTally :=
  (* Goalie starts *)
  let gs := if PyStr.truthy visitor_goalie then bump add_start visitor_goalie goalie_stats
            else goalie_stats in
  let gs := if PyStr.truthy home_goalie then bump add_start home_goalie gs else gs in
  (* Wins *)
  let gs := if PyStr.truthy visitor_goalie && PyStr.truthy home_goalie then
              if h_score <? v_score then bump add_win visitor_goalie gs
              else bump add_win home_goalie gs
            else gs in
  (* Shutouts *)
  let gs := if PyStr.truthy home_goalie && (v_score =? 0) then bump add_shutout home_goalie gs
            else gs in
  let gs := if PyStr.truthy visitor_goalie && (h_score =? 0) then bump add_shutout visitor_goalie gs
            else gs in
  gs.

(** The fields of a row the loop reads. *)
Definition visitor_abbr_of (row : list string) : option string :=
  NHL_TEAM_MAP !! PyStr.strip (nth 3 row "").
Definition home_abbr_of (row : list string) : option string :=
  NHL_TEAM_MAP !! PyStr.strip (nth 5 row "").
Definition status_of (row : list string) : string := PyStr.strip (nth 7 row "").
Definition visitor_goalie_of (row : list string) : string :=
  if (8 <? length row)%nat then PyStr.strip (nth 8 row "") else "".
Definition home_goalie_of (row : list string) : string :=
  if (9 <? length row)%nat then PyStr.strip (nth 9 row "") else "".
Definition v_score_of (row : list string) : option Z := PyStr.int (PyStr.strip (nth 4 row "")).
Definition h_score_of (row : list string) : option Z := PyStr.int (PyStr.strip (nth 6 row "")).

(** The body of the [for row in reader] loop. *)
Definition schedule_row (st : ScheduleData) (row : list string) : ScheduleData :=
  if (length row <? 8)%nat then st
  else
    let visitor_abbr := visitor_abbr_of row in
    let home_abbr := home_abbr_of row in
    if String.eqb (status_of row) "Scheduled" then
      mkSchedule (team_completed st)
                 (count_game home_abbr (count_game visitor_abbr (team_remaining st)))
                 (goalie_schedule_stats st)
    else
      (* Completed game *)
      let completed := count_game home_abbr (count_game visitor_abbr (team_completed st)) in
      match v_score_of row, h_score_of row with
      | Some v_score, Some h_score =>
          mkSchedule completed (team_remaining st)
            (goalie_row (visitor_goalie_of row) (home_goalie_of row) v_score h_score
               (goalie_schedule_stats st))
      | _, _ => mkSchedule completed (team_remaining st) (goalie_schedule_stats st)
      end.

(** [load_schedule] on the rows [csv.reader] yields, header included.
    [None] is the [StopIteration] of [next(reader)] on a file without a
    header row. *)
Definition load_schedule (rows : list (list string)) : option ScheduleData :=
  match rows with
  | [] => None
  | _header :: body => Some (fold_left schedule_row body empty_schedule)
  end.

(* ===================================================================== *)
(** ** data_loader.py: the player matcher *)
(* ===================================================================== *)

Record RosterPlayer := mkPlayer {
  raw : string;
  name : string;
  position : string;
  fchl_team : string
}.

Record SkaterRecord := mkSkater {
  sk_name : string;
  sk_nhl_team : string;
  sk_games_played : float;
  goals : float;
  primary_assists : float;
  secondary_assists : float
}.

Record GoalieRecord := mkGoalie {
  g_name : string;
  g_nhl_team : string;
  g_games_played : float
}.

(** The keys of a dictionary as [list(d.keys())] lists them.  The order is
    only seen by the similarity search, which is a parameter below. *)
Definition keys {V} (d : gmap string V) : list string := (map_to_list d).*1.

(** [fuzzy_match_name].  [extractOne query candidates] stands for
    [fuzz_process.extractOne(query, candidates, scorer=fuzz.token_sort_ratio)]
    of the library thefuzz: the best candidate with its score, or nothing. *)
Definition score_cutoff : Z := 80.

Definition fuzzy_match_name
    (extractOne : string -> list string -> option (string * Z))
    (query : string) (candidates : list string) : option string :=
  match candidates with
  | [] => None
  | _ =>
      match extractOne query candidates with
      | Some (m, score) => if score_cutoff <=? score then Some m else None
      | None => None
      end
  end.

(** The body of the loop of [build_player_lookup]; a lookup value [None]
    is Python's [None]. *)
Definition lookup_player
    (extractOne : string -> list string -> option (string * Z))
    (skater_stats : gmap string SkaterRecord) (goalie_stats : gmap string GoalieRecord)
    (lookup : gmap string (option string)) (player : RosterPlayer)
  : gmap string (option string) :=
  let nm := name player in
  match lookup !! nm with
  | Some _ => lookup
  | None =>
      if String.eqb (position player) "G" then
        match goalie_stats !! nm with
        | Some _ => <[nm := Some nm]> lookup
        | None => <[nm := fuzzy_match_name extractOne nm (keys goalie_stats)]> lookup
        end
      else
        match skater_stats !! nm with
        | Some _ => <[nm := Some nm]> lookup
        | None => <[nm := fuzzy_match_name extractOne nm (keys skater_stats)]> lookup
        end
  end.

Definition build_player_lookup
    (extractOne : string -> list string -> option (string * Z))
    (fchl_roster : list RosterPlayer)
    (skater_stats : gmap string SkaterRecord) (goalie_stats : gmap string GoalieRecord)
  : gmap string (option string) :=
  fold_left (lookup_player extractOne skater_stats goalie_stats) fchl_roster ∅.

(* ===================================================================== *)
(** ** Python arithmetic on [int] and [float] *)
(* ===================================================================== *)

(** The outcome of an expression that may raise [ZeroDivisionError]. *)
Inductive result (A : Type) : Type :=
  | Ok (a : A)
  | ZeroDivisionError.
Arguments Ok {A} a.
Arguments ZeroDivisionError {A}.

#[global] Instance result_ret : MRet result := fun A a => Ok a.
#[global] Instance result_bind : MBind result := fun A B k r =>
  match r with
  | Ok a => k a
  | ZeroDivisionError => ZeroDivisionError
  end.

(** [float(z)] for an [int]: the nearest double, ties to even. *)
Definition float_of_int (z : Z) : float :=
  SF2Prim (binary_normalize prec emax z 0 false).

(** [a / b] on two floats. *)
Definition float_truediv (a b : float) : result float :=
  if PrimFloat.eqb b 0%float then ZeroDivisionError else Ok (a / b)%float.

(** [a / b] on two ints: the exact quotient rounded once to a double. *)
Definition int_as_spec (z : Z) : spec_float :=
  match z with
  | Z0 => S754_zero false
  | Zpos m => S754_finite false m 0
  | Zneg m => S754_finite true m 0
  end.

Definition int_quotient (a b : Z) : float :=
  SF2Prim (SFdiv prec emax (int_as_spec a) (int_as_spec b)).

Definition int_truediv (a b : Z) : result float :=
  if b =? 0 then ZeroDivisionError else Ok (int_quotient a b).

(* ===================================================================== *)
(** ** projections.py *)
(* ===================================================================== *)

Definition GOAL_PTS : Z := 1.
Definition ASSIST_PTS : Z := 1.
Definition WIN_PTS : Z := 2.
Definition SHUTOUT_PTS : Z := 3.

Record PlayerProjection := mkProjection {
  p_name : string;
  p_position : string;
  p_fchl_team : string;
  p_nhl_team : string;
  proj_goals : float;
  proj_assists : float;
  proj_wins : float;
  proj_shutouts : float;
  proj_pts : float;
  found_in_stats : bool
}.

(** The dictionary [base] both projection functions start from. *)
Definition base_projection (player : RosterPlayer) : PlayerProjection :=
  mkProjection (name player) (position player) (fchl_team player) ""
               0%float 0%float 0%float 0%float 0%float false.

(** [base] after [base["nhl_team"] = t; base["found_in_stats"] = True]. *)
Definition found_projection (player : RosterPlayer) (t : string) : PlayerProjection :=
  mkProjection (name player) (position player) (fchl_team player) t
               0%float 0%float 0%float 0%float 0%float true.

Definition project_skater (player : RosterPlayer) (stats_key : option string)
    (skater_stats : gmap string SkaterRecord) (team_remaining : gmap string Z)
  : result PlayerProjection :=
  let base := base_projection player in
  match stats_key with
  | None => Ok base
  | Some key =>
      match skater_stats !! key with
      | None => Ok base
      | Some s =>
          let gp := sk_games_played s in
          if PrimFloat.leb gp 0%float then Ok (found_projection player (sk_nhl_team s))
          else
            let remaining := default 0 (team_remaining !! sk_nhl_team s) in
            gpg ← float_truediv (goals s) gp;
            apg ← float_truediv (primary_assists s + secondary_assists s)%float gp;
            let proj_goals := (gpg * float_of_int remaining)%float in
            let proj_assists := (apg * float_of_int remaining)%float in
            let proj_pts := (proj_goals * float_of_int GOAL_PTS
                             + proj_assists * float_of_int ASSIST_PTS)%float in
            Ok (mkProjection (name player) (position player) (fchl_team player)
                  (sk_nhl_team s) proj_goals proj_assists 0%float 0%float proj_pts true)
      end
  end.

(** [goalie_schedule_stats.get(stats_key) or
     goalie_schedule_stats.get(player["name"], {})], then the three
    [sched.get(field, 0)].  A tally built by [load_schedule] has its three
    fields, so it is truthy and the [or] falls through only when the key is
    absent. *)
Definition schedule_tally (goalie_schedule_stats : gmap string GoalieTally)
    (stats_key player_name : string) : GoalieTally :=
  match goalie_schedule_stats !! stats_key with
  | Some t => t
  | None => default (mkTally 0 0 0) (goalie_schedule_stats !! player_name)
  end.

Definition project_goalie (player : RosterPlayer) (stats_key : option string)
    (goalie_stats : gmap string GoalieRecord)
    (goalie_schedule_stats : gmap string GoalieTally)
    (team_completed team_remaining : gmap string Z)
  : result PlayerProjection :=
  let base := base_projection player in
  match stats_key with
  | None => Ok base
  | Some key =>
      match goalie_stats !! key with
      | None => Ok base
      | Some g =>
          let nhl_team := g_nhl_team g in
          let sched := schedule_tally goalie_schedule_stats key (name player) in
          let team_comp := default 0 (team_completed !! nhl_team) in
          let team_rem := default 0 (team_remaining !! nhl_team) in
          if (starts sched =? 0) || (team_comp =? 0) then Ok (found_projection player nhl_team)
          else
            win_rate ← int_truediv (wins sched) (starts sched);
            shutout_rate ← int_truediv (shutouts sched) (starts sched);
            share ← int_truediv (starts sched) team_comp;
            let remaining_starts := (share * float_of_int team_rem)%float in
            let proj_wins := (win_rate * remaining_starts)%float in
            let proj_shutouts := (shutout_rate * remaining_starts)%float in
            let proj_pts := (proj_wins * float_of_int WIN_PTS
                             + proj_shutouts * float_of_int SHUTOUT_PTS)%float in
            Ok (mkProjection (name player) (position player) (fchl_team player)
                  nhl_team 0%float 0%float proj_wins proj_shutouts proj_pts true)
      end
  end.

(** One turn of the loop of [project_all_players]. *)
Definition project_player (player_lookup : gmap string (option string))
    (skater_stats : gmap string SkaterRecord) (goalie_stats : gmap string GoalieRecord)
    (schedule_data : ScheduleData) (player : RosterPlayer) : result PlayerProjection :=
  let stats_key := mjoin (player_lookup !! name player) in
  if String.eqb (position player) "G" then
    project_goalie player stats_key goalie_stats (goalie_schedule_stats schedule_data)
      (team_completed schedule_data) (team_remaining schedule_data)
  else
    project_skater player stats_key skater_stats (team_remaining schedule_data).

Fixpoint project_all_players (fchl_roster : list RosterPlayer)
    (player_lookup : gmap string (option string))
    (skater_stats : gmap string SkaterRecord) (goalie_stats : gmap string GoalieRecord)
    (schedule_data : ScheduleData) : result (list PlayerProjection) :=
  match fchl_roster with
  | [] => Ok []
  | player :: rest =>
      proj ← project_player player_lookup skater_stats goalie_stats schedule_data player;
      results ← project_all_players rest player_lookup skater_stats goalie_stats schedule_data;
      Ok (proj :: results)
  end.

(** *** Standings *)

Record TeamStanding := mkStanding {
  ts_fchl_team : string;
  current_pts : Z;
  proj_remaining : float;
  proj_total : float
}.

(** The first loop: [team_proj[team] = team_proj.get(team, 0.0) + proj["proj_pts"]]. *)
Definition add_projection (team_proj : gmap string float) (proj : PlayerProjection)
  : gmap string float :=
  <[p_fchl_team proj := (default 0%float (team_proj !! p_fchl_team proj) + proj_pts proj)%float]>
    team_proj.

Definition standing_of (current : gmap string Z) (team_proj : gmap string float)
    (team : string) : TeamStanding :=
  let cur := default 0 (current !! team) in
  let rem := default 0%float (team_proj !! team) in
  mkStanding team cur rem (float_of_int cur + rem)%float.

(** [standings.sort(key=lambda x: x["proj_total"], reverse=True)]: a stable
    sort that compares keys with [<] only.  On keys without a NaN every
    stable sort returns the same list; it is written here as an insertion
    from the right.  (With a NaN among the keys the list Python returns
    depends on the runs its sort finds; on lists of up to three standings
    it is the list computed here.) *)
Fixpoint insert_desc (x : TeamStanding) (l : list TeamStanding) : list TeamStanding :=
  match l with
  | [] => [x]
  | y :: l' =>
      if PrimFloat.ltb (proj_total x) (proj_total y) then y :: insert_desc x l'
      else x :: l
  end.

Definition sort_desc (l : list TeamStanding) : list TeamStanding := foldr insert_desc [] l.

(** [compute_standings].  [set_iter] is the order in which Python iterates
    over the set [all_teams]; the language leaves it unspecified. *)
Definition compute_standings (set_iter : gset string -> list string)
    (projections : list PlayerProjection) (current : gmap string Z)
  : list TeamStanding :=
  let team_proj := fold_left add_projection projections ∅ in
  let all_teams := set_iter (dom team_proj ∪ dom current) in
  sort_desc (standing_of current team_proj <$> all_teams).

(* ===================================================================== *)
(** ** Statements of the specification *)
(* ===================================================================== *)

(** The wins a goalie has in a tally dictionary; a goalie without an entry
    has none. *)
Definition wins_of (goalie_stats : gmap string GoalieTally) (goalie : string) : Z :=
  wins (default (mkTally 0 0 0) (goalie_stats !! goalie)).

(** A row the loop treats as completed. *)
Definition completed_row (row : list string) : bool :=
  (8 <=? length row)%nat && negb (String.eqb (status_of row) "Scheduled").

(** A row the loop treats as not yet played. *)
Definition scheduled_row (row : list string) : bool :=
  (8 <=? length row)%nat && String.eqb (status_of row) "Scheduled".

(** The specification on wins, for one row: on a completed row whose two
    scores parse, the side with the strictly higher score wins, and the
    wins of that side's named starting goalie go up by one while no other
    goalie's wins change. *)
Definition winner_credited (st : ScheduleData) (row : list string) : Prop :=
  ∀ v h,
    completed_row row = true → v_score_of row = Some v → h_score_of row = Some h →
    ∀ winner,
      (h < v ∧ winner = visitor_goalie_of row) ∨ (v < h ∧ winner = home_goalie_of row) →
      PyStr.truthy winner = true →
      wins_of (goalie_schedule_stats (schedule_row st row)) winner
        = wins_of (goalie_schedule_stats st) winner + 1
      ∧ ∀ other, other ≠ winner →
          wins_of (goalie_schedule_stats (schedule_row st row)) other
            = wins_of (goalie_schedule_stats st) other.

(** A schedule row with the given teams, scores, status and goalies. *)
Definition game (visitor v_score home h_score status visitor_goalie home_goalie : string)
  : list string :=
  ["2025-10-07"; "5:00 PM"; "7:00 PM"; visitor; v_score; home; h_score; status;
   visitor_goalie; home_goalie].


(** The sum of a count dictionary over all its teams. *)
Definition total (counts : gmap string Z) : Z :=
  map_fold (λ _ n acc, n + acc) 0 counts.

(** How many of the two team names of a row are in [NHL_TEAM_MAP]. *)
Definition both_recognized (row : list string) : bool :=
  recognized (visitor_abbr_of row) && recognized (home_abbr_of row).

Definition one_recognized (row : list string) : bool :=
  xorb (recognized (visitor_abbr_of row)) (recognized (home_abbr_of row)).

Definition count_rows (p : list string → bool) (rows : list (list string)) : Z :=
  Z.of_nat (length (filter (λ row, p row = true) rows)).

(** How many of the two teams of a row get a game counted. *)
Definition sides (row : list string) : Z :=
  (if recognized (visitor_abbr_of row) then 1 else 0)
  + (if recognized (home_abbr_of row) then 1 else 0).

(** The specification on the game counts: after [load_schedule] the
    completed counts sum to twice the number of completed rows with a
    recognized team on both sides, and likewise the remaining counts for
    the rows not yet played.  [body] are the rows after the header. *)
Definition game_counts_doubled (header : list string) (body : list (list string)) : Prop :=
  ∃ sd, load_schedule (header :: body) = Some sd
    ∧ total (team_completed sd)
      = 2 * count_rows (λ row, completed_row row && both_recognized row) body
    ∧ total (team_remaining sd)
      = 2 * count_rows (λ row, scheduled_row row && both_recognized row) body.

Definition schedule_header : list string :=
  ["Date"; "Start Time (Sask)"; "Start Time (ET)"; "Visitor"; "Score"; "Home"; "Score";
   "Status"; "Visitor Goalie"; "Home Goalie"].


(** The roster player's name is a key of the statistics collection of the
    player's position. *)
Definition in_own_collection (skater_stats : gmap string SkaterRecord)
    (goalie_stats : gmap string GoalieRecord) (player : RosterPlayer) : Prop :=
  if String.eqb (position player) "G" then is_Some (goalie_stats !! name player)
  else is_Some (skater_stats !! name player).

(** The specification on exact matches: every roster player whose name is a
    key of its collection has [lookup[name] == name]. *)
Definition exact_match_recorded
    (extractOne : string -> list string -> option (string * Z))
    (fchl_roster : list RosterPlayer)
    (skater_stats : gmap string SkaterRecord) (goalie_stats : gmap string GoalieRecord)
  : Prop :=
  ∀ player, player ∈ fchl_roster →
    in_own_collection skater_stats goalie_stats player →
    build_player_lookup extractOne fchl_roster skater_stats goalie_stats !! name player
    = Some (Some (name player)).

(** A similarity search that never finds a candidate. *)
Definition no_fuzzy_match : string -> list string -> option (string * Z) :=
  λ _ _, None.

(** All five projected numbers of a projection are zero. *)
Definition all_zero (p : PlayerProjection) : Prop :=
  proj_goals p = 0%float ∧ proj_assists p = 0%float ∧ proj_wins p = 0%float
  ∧ proj_shutouts p = 0%float ∧ proj_pts p = 0%float.

(** The record the projection of a player is computed from: the lookup has
    a match for the player's name and the match is a key of the collection
    of the player's position. *)
Definition has_record (player_lookup : gmap string (option string))
    (skater_stats : gmap string SkaterRecord) (goalie_stats : gmap string GoalieRecord)
    (player : RosterPlayer) : bool :=
  match mjoin (player_lookup !! name player) with
  | None => false
  | Some key =>
      if String.eqb (position player) "G" then bool_decide (is_Some (goalie_stats !! key))
      else bool_decide (is_Some (skater_stats !! key))
  end.

(** The specification on [found_in_stats]: in the list [project_all_players]
    returns, a projection has the flag false exactly when the lookup has no
    match for the player's name, and then its numbers are all zero. *)
Definition found_iff_matched (fchl_roster : list RosterPlayer)
    (player_lookup : gmap string (option string))
    (skater_stats : gmap string SkaterRecord) (goalie_stats : gmap string GoalieRecord)
    (schedule_data : ScheduleData) : Prop :=
  ∃ projections,
    project_all_players fchl_roster player_lookup skater_stats goalie_stats schedule_data
    = Ok projections
    ∧ ∀ i player proj,
        fchl_roster !! i = Some player → projections !! i = Some proj →
        (found_in_stats proj = false ↔ mjoin (player_lookup !! name player) = None)
        ∧ (found_in_stats proj = false → all_zero proj).


(** The goalie example of the specification: tally [{starts: 20, wins: 12,
    shutouts: 2}], team with 25 completed and 15 remaining games. *)
Definition example_goalie : RosterPlayer :=
  mkPlayer "G Jane Doe" "Jane Doe" "G" "BOT".
Definition example_goalie_stats : gmap string GoalieRecord :=
  {[ "Jane Doe" := mkGoalie "Jane Doe" "TOR" 20 ]}.
Definition example_goalie_tallies : gmap string GoalieTally :=
  {[ "Jane Doe" := mkTally 20 12 2 ]}.
Definition example_completed : gmap string Z := {[ "TOR" := 25 ]}.
Definition example_remaining : gmap string Z := {[ "TOR" := 15 ]}.

(** The skater example of the specification: 10 goals, 5 and 3 assists in
    20 games, team with 10 remaining games. *)
Definition example_skater : RosterPlayer :=
  mkPlayer "F John Roe 3" "John Roe" "F" "BOT".
Definition example_skater_stats : gmap string SkaterRecord :=
  {[ "John Roe" := mkSkater "John Roe" "EDM" 20 10 5 3 ]}.
Definition example_skater_remaining : gmap string Z := {[ "EDM" := 10 ]}.


(** The goalie example as the specification states it: the projection
    compares equal to 7.2 wins, 1.2 shutouts and 18.0 points. *)
Definition goalie_example_as_stated : Prop :=
  ∃ p, project_goalie example_goalie (Some "Jane Doe") example_goalie_stats
         example_goalie_tallies example_completed example_remaining = Ok p
    ∧ PrimFloat.eqb (proj_wins p) 7.2%float = true
    ∧ PrimFloat.eqb (proj_shutouts p) 1.2%float = true
    ∧ PrimFloat.eqb (proj_pts p) 18%float = true.


(** The fantasy teams that appear in a list of projections. *)
Definition teams_of (projections : list PlayerProjection) : gset string :=
  list_to_set (p_fchl_team <$> projections).

(** The projected points of the players of one team, added in list order
    to [acc]; from 0.0 this is the sum the first loop of [compute_standings]
    keeps for the team. *)
Definition team_points_from (acc : float) (projections : list PlayerProjection)
    (team : string) : float :=
  fold_left (λ acc proj,
               if String.eqb (p_fchl_team proj) team then (acc + proj_pts proj)%float
               else acc)
            projections acc.

Definition team_points (projections : list PlayerProjection) (team : string) : float :=
  team_points_from 0%float projections team.

(** A list of standings in descending order of [proj_total]: each total is
    [>=] the next one. *)
Definition descending (standings : list TeamStanding) : Prop :=
  Sorted (λ a b, PrimFloat.leb (proj_total b) (proj_total a) = true) standings.

(** The specification on the order of the result. *)
Definition standings_sorted (set_iter : gset string -> list string)
    (projections : list PlayerProjection) (current : gmap string Z) : Prop :=
  descending (compute_standings set_iter projections current).

(** The standings example of the specification: baseline [{A: 800, B: 900}],
    projections that sum to [{A: 50.0, B: 10.0}]. *)
Definition example_baseline : gmap string Z := {[ "A" := 800; "B" := 900 ]}.
Definition example_projections : list PlayerProjection :=
  [ mkProjection "P1" "F" "A" "EDM" 20 10 0 0 30 true;
    mkProjection "P2" "G" "B" "TOR" 0 0 5 0 10 true;
    mkProjection "P3" "D" "A" "EDM" 5 15 0 0 20 true ].

(** Three skaters on three fantasy teams; the statistics row of the second
    has no games-played value, which the statistics loader reads as NaN. *)
Definition nan_roster : list RosterPlayer :=
  [ mkPlayer "D Sam Poe" "Sam Poe" "D" "GVR";
    mkPlayer "F John Roe 3" "John Roe" "F" "BOT";
    mkPlayer "F Lee Moe" "Lee Moe" "F" "LPT" ].
Definition nan_lookup : gmap string (option string) :=
  {[ "Sam Poe" := Some "Sam Poe"; "John Roe" := Some "John Roe";
     "Lee Moe" := Some "Lee Moe" ]}.
Definition nan_skater_stats : gmap string SkaterRecord :=
  {[ "Sam Poe" := mkSkater "Sam Poe" "EDM" 20 2 4 4;
     "John Roe" := mkSkater "John Roe" "EDM" nan 10 5 3;
     "Lee Moe" := mkSkater "Lee Moe" "EDM" 20 10 5 3 ]}.
Definition nan_schedule : ScheduleData :=
  mkSchedule {[ "EDM" := 72 ]} {[ "EDM" := 10 ]} ∅.


(* ===================================================================== *)
(** ** Further statements: what the schedule loop counts *)
(* ===================================================================== *)

(** The tally a goalie has in a tally dictionary, all zero without an
    entry. *)
Definition tally_of (goalie_stats : gmap string GoalieTally) (goalie : string)
  : GoalieTally :=
  default (mkTally 0 0 0) (goalie_stats !! goalie).

(** The scores of a row, when the loop records goalie tallies for it: the
    row is completed and both scores parse. *)
Definition parsed_scores (row : list string) : option (Z * Z) :=
  if completed_row row then
    match v_score_of row, h_score_of row with
    | Some v, Some h => Some (v, h)
    | _, _ => None
    end
  else None.

(** 1 when the goalie named in a row is the named goalie [goalie]. *)
Definition slot (named goalie : string) : Z :=
  if PyStr.truthy named && String.eqb named goalie then 1 else 0.

(** What one row adds to the starts, wins and shutouts of [goalie]. *)
Definition starts_in (row : list string) (goalie : string) : Z :=
  match parsed_scores row with
  | Some _ => slot (visitor_goalie_of row) goalie + slot (home_goalie_of row) goalie
  | None => 0
  end.

Definition wins_in (row : list string) (goalie : string) : Z :=
  match parsed_scores row with
  | Some (v, h) =>
      if PyStr.truthy (visitor_goalie_of row) && PyStr.truthy (home_goalie_of row) then
        if h <? v then slot (visitor_goalie_of row) goalie
        else slot (home_goalie_of row) goalie
      else 0
  | None => 0
  end.

Definition shutouts_in (row : list string) (goalie : string) : Z :=
  match parsed_scores row with
  | Some (v, h) =>
      (if v =? 0 then slot (home_goalie_of row) goalie else 0)
      + (if h =? 0 then slot (visitor_goalie_of row) goalie else 0)
  | None => 0
  end.

(** 1 when the team name of a row maps to the abbreviation [team]. *)
Definition plays (abbr : option string) (team : string) : Z :=
  if recognized abbr && bool_decide (abbr = Some team) then 1 else 0.

(** What one row adds to the count of [team], among the rows [p] selects. *)
Definition games_in (p : list string → bool) (row : list string) (team : string) : Z :=
  if p row then plays (visitor_abbr_of row) team + plays (home_abbr_of row) team else 0.

(** The sum of a per-row quantity over the rows. *)
Definition sum_over (f : list string → Z) (rows : list (list string)) : Z :=
  foldr (λ row acc, f row + acc) 0 rows.

(** The sum of the wins of all goalies of a tally dictionary. *)
Definition total_wins (goalie_stats : gmap string GoalieTally) : Z :=
  total (wins <$> goalie_stats).

(** The sidebar metric of app.py:
    [sum(remaining_games.values()) // 2]. *)
Definition total_remaining (schedule_data : ScheduleData) : Z :=
  total (team_remaining schedule_data) `div` 2.


(** A count dictionary whose keys are abbreviations of [NHL_TEAM_MAP] and
    whose counts are all at least 1. *)
Definition abbreviations_counted (counts : gmap string Z) : Prop :=
  ∀ team n, counts !! team = Some n →
    1 <= n ∧ ∃ full_name, NHL_TEAM_MAP !! full_name = Some team.


(** A tally dictionary as the schedule loop keeps it: no entry under the
    empty name, at least one start per entry, and neither the wins nor the
    shutouts of an entry exceed its starts. *)
Definition tallies_sound (goalie_stats : gmap string GoalieTally) : Prop :=
  ∀ goalie t, goalie_stats !! goalie = Some t →
    goalie ≠ "" ∧ 1 <= starts t
    ∧ 0 <= wins t <= starts t ∧ 0 <= shutouts t <= starts t.

(** A row for which the loop records goalie tallies. *)
Definition tallied_row (row : list string) : bool :=
  match parsed_scores row with Some _ => true | None => false end.


(* ===================================================================== *)
(** ** app.py: the roster builder *)
(* ===================================================================== *)

(** The "Add Player" button: the new entry goes to the end of the roster
    and the lookup gets [player_lookup[add_name] = add_name]. *)
Definition add_player (add_name add_pos add_team : string)
    (state : list RosterPlayer * gmap string (option string))
  : list RosterPlayer * gmap string (option string) :=
  let new_player :=
    mkPlayer (add_pos ++ " " ++ add_name ++ " (added)") add_name add_pos add_team in
  ((state.1 ++ [new_player])%list, <[add_name := Some add_name]> state.2).

(** The statistics collection a roster player is matched against. *)
Definition pool_keys (skater_stats : gmap string SkaterRecord)
    (goalie_stats : gmap string GoalieRecord) (player : RosterPlayer) : list string :=
  if String.eqb (position player) "G" then keys goalie_stats else keys skater_stats.


(** A similarity search that always proposes the first candidate, with a
    fixed score. *)
Definition first_candidate (score : Z) : string -> list string -> option (string * Z) :=
  λ _ candidates,
    match candidates with
    | best :: _ => Some (best, score)
    | [] => None
    end.

(** Every match of a lookup is a key of one of the two collections. *)
Definition matches_are_keys (lookup : gmap string (option string))
    (skater_stats : gmap string SkaterRecord) (goalie_stats : gmap string GoalieRecord)
  : Prop :=
  ∀ player_name key, lookup !! player_name = Some (Some key) →
    is_Some (skater_stats !! key) ∨ is_Some (goalie_stats !! key).


(* ===================================================================== *)
(** ** data_loader.py: the roster loader *)
(* ===================================================================== *)

(** [load_fchl_roster] on the rows of the roster sheet.  A row is given by
    the two strings the loop reads from it, [str(row["PLAYER"])] and
    [str(row["TEAM"])]. *)
Definition roster_entry (row : string * string) : RosterPlayer :=
  let raw := PyStr.strip row.1 in
  let team := PyStr.strip row.2 in
  let '(position, name) := parse_player_name raw in
  mkPlayer raw name position team.

Definition load_fchl_roster (rows : list (string * string)) : list RosterPlayer :=
  roster_entry <$> rows.

(** A whitespace-delimited token: not empty, no whitespace character. *)
Definition token (t : string) : Prop :=
  t ≠ "" ∧ PyStr.all_chars (λ c, negb (PyStr.isspace c)) t = true.

(** A string in which single spaces separate the tokens and nothing
    surrounds them. *)
Definition normalised (s : string) : Prop :=
  PyStr.join " " (PyStr.split s) = s.


(* ===================================================================== *)
(** ** The order of the doubles *)
(* ===================================================================== *)

(** A rank of the doubles that are not NaN in triples of integers ordered
    lexicographically: the infinities at both ends, the two zeros
    together in the middle, the finite doubles of each sign by exponent and
    mantissa.  It is used to show that [<=] on doubles is transitive. *)
Definition SF_rank (s : spec_float) : Z * Z * Z :=
  match s with
  | S754_infinity true => (-2, 0, 0)
  | S754_finite true m e => (-1, - e, - Z.pos m)
  | S754_zero _ => (0, 0, 0)
  | S754_nan => (0, 0, 0)
  | S754_finite false m e => (1, e, Z.pos m)
  | S754_infinity false => (2, 0, 0)
  end.

Definition lex_le (p q : Z * Z * Z) : Prop :=
  let '(a1, b1, c1) := p in
  let '(a2, b2, c2) := q in
  a1 < a2 ∨ (a1 = a2 ∧ (b1 < b2 ∨ (b1 = b2 ∧ c1 <= c2))).

(** No two different standings of a list have totals that compare equal:
    two standings of the list with equal totals are one standing. *)
Definition no_ties (standings : list TeamStanding) : Prop :=
  ∀ s s', s ∈ standings → s' ∈ standings →
    PrimFloat.eqb (proj_total s) (proj_total s') = true → s = s'.


(** The entries the "Remove" and "Move to" controls act on: those with the
    name and the fantasy team of the player shown. *)
Definition same_entry (player_name team : string) (p : RosterPlayer) : bool :=
  String.eqb (name p) player_name && String.eqb (fchl_team p) team.

(** The "Remove" button: the roster without every such entry. *)
Definition remove_player (player_name team : string) (roster : list RosterPlayer)
  : list RosterPlayer :=
  filter (λ p, same_entry player_name team p = false) roster.

(** The "Move to" box: the first such entry gets the new fantasy team. *)
Definition set_team (new_team : string) (p : RosterPlayer) : RosterPlayer :=
  mkPlayer (raw p) (name p) (position p) new_team.

Fixpoint move_player (player_name team new_team : string) (roster : list RosterPlayer)
  : list RosterPlayer :=
  match roster with
  | [] => []
  | p :: rest =>
      if same_entry player_name team p then set_team new_team p :: rest
      else p :: move_player player_name team new_team rest
  end.

(** The same two edits on a list of projections. *)
Definition same_projection (player_name team : string) (proj : PlayerProjection) : bool :=
  String.eqb (p_name proj) player_name && String.eqb (p_fchl_team proj) team.

Definition set_projection_team (new_team : string) (proj : PlayerProjection)
  : PlayerProjection :=
  mkProjection (p_name proj) (p_position proj) new_team (p_nhl_team proj)
    (proj_goals proj) (proj_assists proj) (proj_wins proj) (proj_shutouts proj)
    (proj_pts proj) (found_in_stats proj).

Fixpoint move_projection (player_name team new_team : string)
    (projections : list PlayerProjection) : list PlayerProjection :=
  match projections with
  | [] => []
  | proj :: rest =>
      if same_projection player_name team proj then
        set_projection_team new_team proj :: rest
      else proj :: move_projection player_name team new_team rest
  end.

(* ===================================================================== *)
(** ** data_loader.py: the statistics loaders *)
(* ===================================================================== *)

(** A row of the statistics sheets as the loops read it: the situation
    cell, [str(row["name"])], [str(row["team"])], [float(row["games_played"])]
    and, for skaters, the three cells [row.get(column, 0)] read as floats,
    [None] when the sheet has no such column. *)
Record StatsRow := mkStatsRow {
  row_situation : string;
  row_name : string;
  row_team : string;
  row_games_played : float;
  row_goals : option float;
  row_primary_assists : option float;
  row_secondary_assists : option float
}.

(** [float(cell or 0)]: a cell that compares equal to zero, or a missing
    column, gives 0.0. *)
Definition float_or_zero (cell : option float) : float :=
  match cell with
  | Some x => if PrimFloat.eqb x 0%float then 0%float else x
  | None => 0%float
  end.

Definition skater_record_of (row : StatsRow) : SkaterRecord :=
  mkSkater (PyStr.strip (row_name row)) (PyStr.strip (row_team row))
    (row_games_played row) (float_or_zero (row_goals row))
    (float_or_zero (row_primary_assists row)) (float_or_zero (row_secondary_assists row)).

Definition goalie_record_of (row : StatsRow) : GoalieRecord :=
  mkGoalie (PyStr.strip (row_name row)) (PyStr.strip (row_team row))
    (row_games_played row).

(** [df[df["situation"] == "all"]]. *)
Definition all_situations (rows : list StatsRow) : list StatsRow :=
  filter (λ row, row_situation row = "all") rows.

Definition load_skater_stats (rows : list StatsRow) : gmap string SkaterRecord :=
  fold_left (λ stats row, <[PyStr.strip (row_name row) := skater_record_of row]> stats)
            (all_situations rows) ∅.

Definition load_goalie_stats (rows : list StatsRow) : gmap string GoalieRecord :=
  fold_left (λ stats row, <[PyStr.strip (row_name row) := goalie_record_of row]> stats)
            (all_situations rows) ∅.

(** The rows of a sheet that count for a key: situation "all", and the key
    as stripped name. *)
Definition rows_of_key (key : string) (rows : list StatsRow) : list StatsRow :=
  filter (λ row, row_situation row = "all" ∧ PyStr.strip (row_name row) = key) rows.


(* ===================================================================== *)
(** ** The NaN example, from the sheets *)
(* ===================================================================== *)

(** The two sheets behind [nan_roster] and [nan_skater_stats] as the loaders
    read them.  The games-played cell of John Roe is blank: a blank cell of
    a numeric column reaches the loop as NaN, and [float] keeps it. *)
Definition nan_roster_rows : list (string * string) :=
  [ ("D Sam Poe", "GVR"); ("F John Roe 3", "BOT"); ("F Lee Moe", "LPT") ].
Definition nan_skater_rows : list StatsRow :=
  [ mkStatsRow "all" "Sam Poe" "EDM" 20 (Some 2%float) (Some 4%float) (Some 4%float);
    mkStatsRow "all" "John Roe" "EDM" nan (Some 10%float) (Some 5%float) (Some 3%float);
    mkStatsRow "all" "Lee Moe" "EDM" 20 (Some 10%float) (Some 5%float) (Some 3%float) ].

(* ===================================================================== *)
(** * Properties *)
(* ===================================================================== *)

(** ** The roster name parser *)

Section SplitStrip.

Import PyStr.

Lemma split_lstrip s : split (lstrip s) = split s.
Proof.
  induction s as [|c s IH]; simpl; [reflexivity|].
  destruct (isspace c) eqn:Hc; [exact IH|].
  simpl. rewrite Hc. reflexivity.
Qed.

Lemma rstrip_cons c s :
  rstrip (String c s) =
    if nonempty (rstrip s) then String c (rstrip s)
    else if isspace c then EmptyString else String c EmptyString.
Proof. simpl. destruct (rstrip s); reflexivity. Qed.

Lemma starts_token_rstrip s : starts_token (rstrip s) = starts_token s.
Proof.
  destruct s as [|c s]; [reflexivity|].
  rewrite rstrip_cons.
  destruct (nonempty (rstrip s)); [reflexivity|].
  simpl. destruct (isspace c) eqn:Hc; simpl; rewrite ?Hc; reflexivity.
Qed.

Lemma split_rstrip s : split (rstrip s) = split s.
Proof.
  induction s as [|c s IH]; [reflexivity|].
  rewrite rstrip_cons.
  destruct (nonempty (rstrip s)) eqn:Hne.
  - simpl. rewrite starts_token_rstrip, IH. reflexivity.
  - assert (Hr : rstrip s = EmptyString) by (destruct (rstrip s); [reflexivity|discriminate]).
    assert (Hs : split s = []) by (rewrite <- IH, Hr; reflexivity).
    assert (Ht : starts_token s = false)
      by (rewrite <- starts_token_rstrip, Hr; reflexivity).
    simpl. rewrite Ht, Hs.
    destruct (isspace c) eqn:Hc; simpl; rewrite ?Hc; reflexivity.
Qed.

Lemma split_strip s : split (strip s) = split s.
Proof. unfold strip. rewrite split_lstrip. apply split_rstrip. Qed.

(** A single character is an uppercase letter exactly when the three
    tests of the source pass on it. *)
Lemma upper_letter_char c :
  isalpha_char c && (isupper_char c && negb (islower_char c)) = isupper_char c.
Proof. destruct c as [[] [] [] [] [] [] [] []]; reflexivity. Qed.

Lemma single_upper_tests tok :
  (String.length tok =? 1)%nat && isalpha tok && isupper tok
  = single_uppercase_letter tok.
Proof.
  destruct tok as [|c [|c' tok]]; try reflexivity.
  unfold isalpha, isupper; simpl.
  rewrite !orb_false_r, !andb_true_r. apply upper_letter_char.
Qed.

End SplitStrip.

Lemma slice_index_one len : 1 <= len → slice_index len 1 = 1%nat.
Proof. intros H. unfold slice_index. change (1 <? 0) with false. cbv iota. lia. Qed.

Lemma slice_index_minus_one len :
  1 <= len → slice_index len (-1) = Z.to_nat (len - 1).
Proof. intros H. unfold slice_index. change (-1 <? 0) with true. cbv iota. lia. Qed.

Lemma py_slice_inner {A} (x : A) (l : list A) :
  l ≠ [] → py_slice 1 (-1) (x :: l) = removelast l.
Proof.
  intros Hl. unfold py_slice.
  assert (Hlen : (1 <= length l)%nat) by (destruct l; [congruence | simpl; lia]).
  rewrite slice_index_one, slice_index_minus_one by (simpl length; lia).
  simpl drop. rewrite removelast_firstn_len.
  f_equal. simpl length. lia.
Qed.

(** C6: [parse_player_name] follows the rule of the specification on every
    raw string: the first whitespace-delimited token is the position, the
    other tokens joined by a space are the name, and the last token is left
    out exactly when it is entirely numeric or a single uppercase letter and
    a name token remains without it; with fewer than two tokens the position
    is empty and the name is the whole string.  The two examples of the
    specification evaluate as it says. *)
Theorem parse_player_name_rule :
  (∀ raw, parse_player_name raw = parse_player_name_spec raw)
  ∧ parse_player_name "F Connor McDavid 97" = ("F", "Connor McDavid")
  ∧ parse_player_name "D A" = ("D", "A").
Proof.
  split; [|split; reflexivity].
  intros raw. unfold parse_player_name, parse_player_name_spec.
  rewrite split_strip.
  destruct (PyStr.split raw) as [|pos [|tok toks]]; try reflexivity.
  set (rest := tok :: toks).
  assert (Hrest : rest ≠ []) by discriminate.
  replace (length (pos :: rest) <? 2)%nat with false
    by (symmetry; apply Nat.ltb_ge; simpl; lia).
  change (List.last (pos :: rest) "") with (List.last rest "").
  rewrite single_upper_tests.
  change (hd "" (pos :: rest)) with pos.
  change (drop 1 (pos :: rest)) with rest.
  rewrite (py_slice_inner pos rest Hrest).
  unfold entirely_numeric.
  replace (2 <? length (pos :: rest))%nat with (1 <=? length (removelast rest))%nat; [reflexivity|].
  rewrite removelast_firstn_len, length_take.
  subst rest. simpl length.
  destruct toks; reflexivity.
Qed.

(** The parser on a few more roster lines. *)
Example parse_without_suffix :
  parse_player_name "G Igor Shesterkin" = ("G", "Igor Shesterkin").
Proof. reflexivity. Qed.

Example parse_letter_suffix :
  parse_player_name "D  Sebastian Aho   B " = ("D", "Sebastian Aho").
Proof. reflexivity. Qed.

Example parse_lowercase_last_token :
  parse_player_name "F Someone b" = ("F", "Someone b").
Proof. reflexivity. Qed.

Example parse_single_token : parse_player_name " Solo " = ("", " Solo ").
Proof. reflexivity. Qed.

(** ** The schedule derivation: goalie wins *)

Section GoalieTallies.

Implicit Types (gs : gmap string GoalieTally) (f : GoalieTally → GoalieTally).

Lemma lookup_bump f n gs m :
  bump f n gs !! m =
    if decide (n = m) then Some (f (default (mkTally 0 0 0) (gs !! n))) else gs !! m.
Proof.
  unfold bump, _goalie_entry. rewrite lookup_alter.
  destruct (gs !! n) eqn:Hn; case_decide; subst; simpl.
  - rewrite Hn. reflexivity.
  - reflexivity.
  - rewrite lookup_insert_eq. reflexivity.
  - rewrite lookup_insert_ne by assumption. reflexivity.
Qed.

(** A field increment that leaves [wins] alone leaves every goalie's wins
    alone. *)
Lemma wins_of_bump_other_field f n gs m :
  (∀ t, wins (f t) = wins t) → wins_of (bump f n gs) m = wins_of gs m.
Proof.
  intros Hf. unfold wins_of. rewrite lookup_bump.
  case_decide; subst; simpl; [|reflexivity].
  rewrite Hf. reflexivity.
Qed.

Lemma wins_of_bump_win n gs m :
  wins_of (bump add_win n gs) m = wins_of gs m + (if decide (m = n) then 1 else 0).
Proof.
  unfold wins_of. rewrite lookup_bump.
  destruct (decide (n = m)) as [->|Hne].
  - rewrite decide_True by reflexivity. reflexivity.
  - rewrite decide_False by congruence. lia.
Qed.

(** What [goalie_row] does to the wins: one more for the goalie the
    comparison of the scores selects, and only under the guard that both
    starting goalies are named. *)
Lemma wins_of_goalie_row vg hg v h gs m :
  wins_of (goalie_row vg hg v h gs) m =
    wins_of gs m
    + (if PyStr.truthy vg && PyStr.truthy hg then
         if decide (m = if h <? v then vg else hg) then 1 else 0
       else 0).
Proof.
  unfold goalie_row.
  destruct (PyStr.truthy vg), (PyStr.truthy hg), (h <? v), (v =? 0), (h =? 0);
    cbn [andb];
    rewrite ?(wins_of_bump_other_field add_shutout) by reflexivity;
    rewrite ?wins_of_bump_win;
    rewrite ?(wins_of_bump_other_field add_start) by reflexivity;
    lia.
Qed.

End GoalieTallies.

Lemma schedule_row_completed st row v h :
  completed_row row = true → v_score_of row = Some v → h_score_of row = Some h →
  goalie_schedule_stats (schedule_row st row)
  = goalie_row (visitor_goalie_of row) (home_goalie_of row) v h (goalie_schedule_stats st).
Proof.
  unfold completed_row, schedule_row. intros Hc Hv Hh.
  apply andb_true_iff in Hc as [Hlen Hst].
  apply Nat.leb_le in Hlen. apply negb_true_iff in Hst.
  replace (length row <? 8)%nat with false by (symmetry; apply Nat.ltb_ge; lia).
  rewrite Hst, Hv, Hh. reflexivity.
Qed.

(** C1 (amended): on a completed row whose two scores parse and whose two
    starting goalies are both named, the wins of the goalie of the side with
    the strictly higher score go up by one and no other goalie's wins
    change; when either starting goalie is unnamed, the row changes nobody's
    wins. *)
Theorem wins_credited_when_both_named st row v h :
  completed_row row = true → v_score_of row = Some v → h_score_of row = Some h →
  (PyStr.truthy (visitor_goalie_of row) = true →
   PyStr.truthy (home_goalie_of row) = true →
   ∀ winner,
     (h < v ∧ winner = visitor_goalie_of row) ∨ (v < h ∧ winner = home_goalie_of row) →
     wins_of (goalie_schedule_stats (schedule_row st row)) winner
       = wins_of (goalie_schedule_stats st) winner + 1
     ∧ ∀ other, other ≠ winner →
         wins_of (goalie_schedule_stats (schedule_row st row)) other
           = wins_of (goalie_schedule_stats st) other)
  ∧ (PyStr.truthy (visitor_goalie_of row) && PyStr.truthy (home_goalie_of row) = false →
     ∀ goalie,
       wins_of (goalie_schedule_stats (schedule_row st row)) goalie
         = wins_of (goalie_schedule_stats st) goalie).
Proof.
  intros Hc Hv Hh.
  rewrite (schedule_row_completed st row v h Hc Hv Hh).
  split.
  - intros Hvg Hhg winner Hw.
    assert (Hsel : winner = if h <? v then visitor_goalie_of row else home_goalie_of row).
    { destruct Hw as [[Hlt ->]|[Hlt ->]].
      - replace (h <? v) with true by (symmetry; apply Z.ltb_lt; lia). reflexivity.
      - replace (h <? v) with false by (symmetry; apply Z.ltb_ge; lia). reflexivity. }
    split.
    + rewrite wins_of_goalie_row, Hvg, Hhg. cbn [andb].
      rewrite decide_True by exact Hsel. reflexivity.
    + intros other Hne. rewrite wins_of_goalie_row, Hvg, Hhg. cbn [andb].
      rewrite decide_False by congruence. lia.
  - intros Hguard goalie. rewrite wins_of_goalie_row, Hguard. lia.
Qed.

Lemma wins_credited_when_both_named_witness :
  wins_of (goalie_schedule_stats
             (schedule_row empty_schedule
                (game "Toronto Maple Leafs" "3" "Boston Bruins" "1" "Final"
                      "Goalie A" "Goalie B")))
          "Goalie A" = 1.
Proof.
  refine (proj1 (proj1 (wins_credited_when_both_named empty_schedule
                          (game "Toronto Maple Leafs" "3" "Boston Bruins" "1" "Final"
                                "Goalie A" "Goalie B") 3 1 _ _ _) _ _ "Goalie A" _)).
  - reflexivity.
  - reflexivity.
  - reflexivity.
  - reflexivity.
  - reflexivity.
  - left. split; [lia | reflexivity].
Defined.

(** The statement of the specification fails on a completed row that names
    the winner's goalie but not the loser's: the visitor wins 3-1 behind
    "Goalie A", no home goalie is recorded, and "Goalie A" is credited with
    no win. *)
Lemma winner_credited_counterexample :
  ¬ winner_credited empty_schedule
      (game "Toronto Maple Leafs" "3" "Boston Bruins" "1" "Final" "Goalie A" "").
Proof.
  intros Hclaim.
  destruct (Hclaim 3 1 eq_refl eq_refl eq_refl "Goalie A") as [Hwin _].
  - left. split; [lia | reflexivity].
  - reflexivity.
  - vm_compute in Hwin. discriminate.
Qed.

(** With both goalies named and a tied score, the [else] branch credits
    the home goalie. *)
Example tie_credits_home_goalie :
  wins_of (goalie_schedule_stats
             (schedule_row empty_schedule
                (game "Toronto Maple Leafs" "2" "Boston Bruins" "2" "Final"
                      "Goalie A" "Goalie B")))
          "Goalie B" = 1.
Proof. vm_compute. reflexivity. Qed.

(** A completed row whose score does not parse counts the game for both
    teams and records no goalie tally. *)
Example unparsed_score_keeps_counts :
  let st := schedule_row empty_schedule
              (game "Toronto Maple Leafs" "" "Boston Bruins" "3" "Postponed"
                    "Goalie A" "Goalie B") in
  team_completed st !! "TOR" = Some 1 ∧ team_completed st !! "BOS" = Some 1
  ∧ goalie_schedule_stats st = ∅.
Proof. vm_compute. repeat split. Qed.

(** A shutout win: one start each, the win and the shutout to the home
    goalie. *)
Example shutout_row :
  let st := schedule_row empty_schedule
              (game "Toronto Maple Leafs" "0" "Boston Bruins" "2" "Final"
                    "Goalie A" "Goalie B") in
  goalie_schedule_stats st !! "Goalie A" = Some (mkTally 1 0 0)
  ∧ goalie_schedule_stats st !! "Goalie B" = Some (mkTally 1 1 1).
Proof. vm_compute. repeat split. Qed.

(** ** The schedule derivation: game counts *)

Section GameCounts.

Implicit Types (counts : gmap string Z) (row : list string).

Lemma total_insert_fresh counts a n :
  counts !! a = None → total (<[a := n]> counts) = n + total counts.
Proof.
  intros Hnone. unfold total.
  rewrite map_fold_insert_L; [reflexivity | intros; lia | assumption].
Qed.

Lemma total_lookup counts a n :
  counts !! a = Some n → total counts = n + total (delete a counts).
Proof.
  intros Hsome. unfold total.
  rewrite (map_fold_delete_L _ _ a n counts); [reflexivity | intros; lia | assumption].
Qed.

Lemma total_count_game abbr counts :
  total (count_game abbr counts) = total counts + (if recognized abbr then 1 else 0).
Proof.
  unfold count_game, recognized.
  destruct abbr as [a|]; [|lia].
  destruct (PyStr.truthy a); [|lia].
  destruct (counts !! a) as [n|] eqn:Hlook; simpl.
  - rewrite (total_lookup counts a n Hlook).
    rewrite <- insert_delete_eq.
    rewrite total_insert_fresh by apply lookup_delete_eq. lia.
  - rewrite total_insert_fresh by assumption. lia.
Qed.

Lemma total_completed_row st row :
  total (team_completed (schedule_row st row))
  = total (team_completed st) + (if completed_row row then sides row else 0).
Proof.
  unfold schedule_row, completed_row, sides.
  destruct (length row <? 8)%nat eqn:Hlen.
  - apply Nat.ltb_lt in Hlen.
    replace (8 <=? length row)%nat with false by (symmetry; apply Nat.leb_gt; lia).
    cbn [andb]. lia.
  - apply Nat.ltb_ge in Hlen.
    replace (8 <=? length row)%nat with true by (symmetry; apply Nat.leb_le; lia).
    destruct (String.eqb (status_of row) "Scheduled");
      cbn [andb negb team_completed]; [lia|].
    destruct (v_score_of row), (h_score_of row); cbn [team_completed];
      rewrite !total_count_game; lia.
Qed.

Lemma total_remaining_row st row :
  total (team_remaining (schedule_row st row))
  = total (team_remaining st) + (if scheduled_row row then sides row else 0).
Proof.
  unfold schedule_row, scheduled_row, sides.
  destruct (length row <? 8)%nat eqn:Hlen.
  - apply Nat.ltb_lt in Hlen.
    replace (8 <=? length row)%nat with false by (symmetry; apply Nat.leb_gt; lia).
    cbn [andb]. lia.
  - apply Nat.ltb_ge in Hlen.
    replace (8 <=? length row)%nat with true by (symmetry; apply Nat.leb_le; lia).
    destruct (String.eqb (status_of row) "Scheduled"); cbn [andb negb team_remaining].
    + rewrite !total_count_game. lia.
    + destruct (v_score_of row), (h_score_of row); cbn [team_remaining]; lia.
Qed.

Lemma count_rows_cons p row rows :
  count_rows p (row :: rows) = (if p row then 1 else 0) + count_rows p rows.
Proof.
  unfold count_rows. rewrite filter_cons.
  destruct (p row); case_decide; try congruence; simpl length; lia.
Qed.

Lemma sides_split row (b : bool) :
  (if b then sides row else 0)
  = 2 * (if b && both_recognized row then 1 else 0)
    + (if b && one_recognized row then 1 else 0).
Proof.
  unfold sides, both_recognized, one_recognized.
  destruct b, (recognized (visitor_abbr_of row)), (recognized (home_abbr_of row));
    reflexivity.
Qed.

(** The invariant of the loop over the rows. *)
Lemma totals_fold body : ∀ st,
  total (team_completed (fold_left schedule_row body st))
  = total (team_completed st)
    + 2 * count_rows (λ row, completed_row row && both_recognized row) body
    + count_rows (λ row, completed_row row && one_recognized row) body
  ∧ total (team_remaining (fold_left schedule_row body st))
    = total (team_remaining st)
      + 2 * count_rows (λ row, scheduled_row row && both_recognized row) body
      + count_rows (λ row, scheduled_row row && one_recognized row) body.
Proof.
  induction body as [|row body IH]; intros st.
  - unfold count_rows. simpl. lia.
  - cbn [fold_left]. destruct (IH (schedule_row st row)) as [IHc IHr].
    rewrite IHc, IHr, total_completed_row, total_remaining_row.
    rewrite !count_rows_cons, !sides_split. lia.
Qed.

End GameCounts.

(** C5 (amended): whenever the file has a header row, [load_schedule]
    returns, the completed counts sum to twice the number of completed rows
    with both teams recognized plus the number of completed rows with
    exactly one team recognized, and the remaining counts sum likewise over
    the rows not yet played. *)
Theorem game_counts_sum header body :
  ∃ sd, load_schedule (header :: body) = Some sd
    ∧ total (team_completed sd)
      = 2 * count_rows (λ row, completed_row row && both_recognized row) body
        + count_rows (λ row, completed_row row && one_recognized row) body
    ∧ total (team_remaining sd)
      = 2 * count_rows (λ row, scheduled_row row && both_recognized row) body
        + count_rows (λ row, scheduled_row row && one_recognized row) body.
Proof.
  eexists. split; [reflexivity|].
  destruct (totals_fold body empty_schedule) as [Hc Hr].
  rewrite Hc, Hr. split; reflexivity.
Qed.

(** The statement of the specification fails on a schedule whose one
    completed game has a recognized visitor and an unrecognized home team:
    the completed counts sum to 1, and no row has both teams recognized. *)
Lemma game_counts_doubled_counterexample :
  ¬ game_counts_doubled schedule_header
      [game "Toronto Maple Leafs" "3" "Team Europe" "1" "Final" "Goalie A" "Goalie B"].
Proof.
  intros (sd & Hload & Hc & _).
  injection Hload as <-.
  vm_compute in Hc. discriminate.
Qed.

(** ** The player matcher *)

Section PlayerLookup.

Variable extractOne : string -> list string -> option (string * Z).
Variable skater_stats : gmap string SkaterRecord.
Variable goalie_stats : gmap string GoalieRecord.

Local Abbreviation step := (lookup_player extractOne skater_stats goalie_stats).

(** The loop never overwrites an entry. *)
Lemma lookup_player_keeps lookup player n v :
  lookup !! n = Some v → step lookup player !! n = Some v.
Proof.
  intros Hn. unfold lookup_player.
  destruct (lookup !! name player) eqn:Hp; [assumption|].
  assert (name player ≠ n) by congruence.
  destruct (String.eqb (position player) "G");
    [destruct (goalie_stats !! name player) | destruct (skater_stats !! name player)];
    rewrite lookup_insert_ne by assumption; assumption.
Qed.

Lemma fold_lookup_keeps roster : ∀ lookup n v,
  lookup !! n = Some v → fold_left step roster lookup !! n = Some v.
Proof.
  induction roster as [|p roster IH]; intros lookup n v Hn; [assumption|].
  cbn [fold_left]. apply IH, lookup_player_keeps, Hn.
Qed.

(** A player of another name leaves the entry of [n] as it is. *)
Lemma lookup_player_other lookup player n :
  name player ≠ n → step lookup player !! n = lookup !! n.
Proof.
  intros Hne. unfold lookup_player.
  destruct (lookup !! name player); [reflexivity|].
  destruct (String.eqb (position player) "G");
    [destruct (goalie_stats !! name player) | destruct (skater_stats !! name player)];
    apply lookup_insert_ne; assumption.
Qed.

Lemma fold_lookup_other roster : ∀ lookup n,
  Forall (λ q, name q ≠ n) roster →
  fold_left step roster lookup !! n = lookup !! n.
Proof.
  induction roster as [|p roster IH]; intros lookup n Hall; [reflexivity|].
  inversion Hall as [|? ? Hp Hrest]; subst.
  cbn [fold_left]. rewrite IH by assumption. apply lookup_player_other, Hp.
Qed.

(** The first entry of a name that is a key of its collection is matched
    to itself. *)
Lemma lookup_player_exact lookup player :
  lookup !! name player = None →
  in_own_collection skater_stats goalie_stats player →
  step lookup player !! name player = Some (Some (name player)).
Proof.
  intros Hfresh Hin. unfold lookup_player, in_own_collection in *.
  rewrite Hfresh.
  destruct (String.eqb (position player) "G"); destruct Hin as [r ->];
    apply lookup_insert_eq.
Qed.

End PlayerLookup.

(** C7 (amended): the lookup entry of a name is decided by the first roster
    entry that bears the name; when the name of that entry is a key of the
    statistics collection of its position, the entry is the exact match
    [lookup[name] == name], whatever the similarity search would return. *)
Theorem exact_match_for_first_entry extractOne before player after skater_stats goalie_stats :
  Forall (λ q, name q ≠ name player) before →
  in_own_collection skater_stats goalie_stats player →
  build_player_lookup extractOne (before ++ player :: after) skater_stats goalie_stats
    !! name player
  = Some (Some (name player)).
Proof.
  intros Hfirst Hin. unfold build_player_lookup.
  rewrite fold_left_app. cbn [fold_left].
  apply fold_lookup_keeps, lookup_player_exact; [|assumption].
  rewrite fold_lookup_other by assumption. apply lookup_empty.
Qed.

Lemma exact_match_for_first_entry_witness :
  build_player_lookup no_fuzzy_match
    ([] ++ mkPlayer "F Connor McDavid 97" "Connor McDavid" "F" "BOT" :: [])
    {[ "Connor McDavid" := mkSkater "Connor McDavid" "EDM" 20 10 5 3 ]} ∅
    !! "Connor McDavid"
  = Some (Some "Connor McDavid").
Proof.
  apply (exact_match_for_first_entry no_fuzzy_match []
           (mkPlayer "F Connor McDavid 97" "Connor McDavid" "F" "BOT") []).
  - constructor.
  - unfold in_own_collection. simpl. rewrite lookup_singleton_eq. eexists. reflexivity.
Defined.

(** The statement of the specification fails on a roster with two entries
    of one name in different positions: the skater entry comes first, is
    not in the skater collection and gets no match; the goalie entry is a
    key of the goalie collection, yet the lookup keeps the first answer. *)
Lemma exact_match_recorded_counterexample :
  ¬ exact_match_recorded no_fuzzy_match
      [ mkPlayer "F Alex Smith 4" "Alex Smith" "F" "BOT";
        mkPlayer "G Alex Smith" "Alex Smith" "G" "GVR" ]
      ∅
      {[ "Alex Smith" := mkGoalie "Alex Smith" "TOR" 30 ]}.
Proof.
  intros Hclaim.
  specialize (Hclaim (mkPlayer "G Alex Smith" "Alex Smith" "G" "GVR")).
  assert (Hlook : build_player_lookup no_fuzzy_match
      [ mkPlayer "F Alex Smith 4" "Alex Smith" "F" "BOT";
        mkPlayer "G Alex Smith" "Alex Smith" "G" "GVR" ]
      ∅ {[ "Alex Smith" := mkGoalie "Alex Smith" "TOR" 30 ]} !! "Alex Smith" = Some None)
    by (vm_compute; reflexivity).
  cbn [name] in Hclaim. rewrite Hlook in Hclaim.
  enough (Some (@None string) = Some (Some "Alex Smith")) by discriminate.
  apply Hclaim.
  - set_solver.
  - unfold in_own_collection. simpl. rewrite lookup_singleton_eq. eexists. reflexivity.
Qed.

(** ** Facts on binary64 arithmetic *)

Lemma Prim2SF_zero : Prim2SF 0%float = S754_zero false.
Proof. reflexivity. Qed.

Lemma Prim2SF_one : Prim2SF 1%float = S754_finite false 4503599627370496 (-52).
Proof. reflexivity. Qed.

(** A float that fails [x <= 0] is not zero. *)
Lemma float_leb_false_nonzero x :
  PrimFloat.leb x 0%float = false → PrimFloat.eqb x 0%float = false.
Proof.
  rewrite FloatAxioms.leb_spec, FloatAxioms.eqb_spec. unfold SFleb, SFeqb.
  destruct (SFcompare _ _) as [[]|]; congruence.
Qed.

Lemma float_zero_leb x :
  PrimFloat.eqb x 0%float = true → PrimFloat.leb x 0%float = true.
Proof.
  rewrite FloatAxioms.leb_spec, FloatAxioms.eqb_spec. unfold SFleb, SFeqb.
  destruct (SFcompare _ _) as [[]|]; congruence.
Qed.

(** A float above zero fails [x <= 0]. *)
Lemma float_pos_not_leb x :
  PrimFloat.ltb 0%float x = true → PrimFloat.leb x 0%float = false.
Proof.
  rewrite FloatAxioms.ltb_spec, FloatAxioms.leb_spec, Prim2SF_zero.
  unfold SFltb, SFleb.
  destruct (Prim2SF x) as [[]|[]| |[] m e]; simpl; congruence.
Qed.

Lemma digits2_iter_xO m n :
  Z.pos (digits2_pos (Pos.iter xO m n)) = Z.pos (digits2_pos m) + Z.pos n.
Proof.
  induction n as [|n IH] using Pos.peano_ind.
  - change (Z.pos (Pos.succ (digits2_pos m)) = Z.pos (digits2_pos m) + 1). lia.
  - rewrite Pos.iter_succ.
    change (digits2_pos (Pos.iter xO m n)~0) with (Pos.succ (digits2_pos (Pos.iter xO m n))).
    lia.
Qed.

(** Multiplication by 1.0 is exact: the product of the mantissa with 2^52
    is shifted back by 52 bits and nothing is rounded away. *)
Lemma SFmul_one s :
  valid_binary s = true →
  SFmul prec emax s (S754_finite false 4503599627370496 (-52)) = s.
Proof.
  destruct s as [[]|[]| |sg m e]; try reflexivity.
  unfold valid_binary, bounded, canonical_mantissa. intros Hb.
  apply andb_true_iff in Hb as [Hcan Hmax].
  apply Z.eqb_eq in Hcan.
  unfold SFmul.
  rewrite xorb_false_r.
  assert (HM : (m * 4503599627370496)%positive = Pos.iter xO m 52)
    by (rewrite Pos.mul_comm; reflexivity).
  rewrite HM.
  assert (HS : SpecFloat.iter_pos shr_1 52 (Build_shr_record (Z.pos (Pos.iter xO m 52)) false false)
               = Build_shr_record (Z.pos m) false false) by reflexivity.
  unfold binary_round_aux, shr_fexp.
  unfold Zdigits2 at 1. rewrite digits2_iter_xO.
  replace (Z.pos (digits2_pos m) + 52 + (e + -52)) with (Z.pos (digits2_pos m) + e) by lia.
  rewrite Hcan.
  replace (e - (e + -52)) with 52 by lia.
  cbn [shr shr_record_of_loc]. rewrite HS.
  cbn [shr_m loc_of_shr_record round_nearest_even Zdigits2].
  replace (e + -52 + 52) with e by lia.
  rewrite Hcan, Z.sub_diag. cbn [shr shr_m shr_record_of_loc].
  rewrite Hmax. reflexivity.
Qed.

Lemma float_mul_one x : (x * 1)%float = x.
Proof.
  rewrite <- (FloatAxioms.SF2Prim_Prim2SF (x * 1)%float).
  rewrite FloatAxioms.mul_spec, Prim2SF_one.
  unfold SF64mul. rewrite SFmul_one by apply FloatAxioms.Prim2SF_valid.
  apply FloatAxioms.SF2Prim_Prim2SF.
Qed.

Lemma SFmul_comm x y : SFmul prec emax x y = SFmul prec emax y x.
Proof.
  destruct x as [sx|sx| |sx mx ex], y as [sy|sy| |sy my ey]; simpl;
    rewrite ?(xorb_comm sx sy), ?(Pos.mul_comm mx my), ?(Z.add_comm ex ey);
    reflexivity.
Qed.

Lemma float_mul_comm x y : (x * y)%float = (y * x)%float.
Proof.
  rewrite <- (FloatAxioms.SF2Prim_Prim2SF (x * y)%float).
  rewrite <- (FloatAxioms.SF2Prim_Prim2SF (y * x)%float).
  rewrite !FloatAxioms.mul_spec. unfold SF64mul. rewrite SFmul_comm. reflexivity.
Qed.

(** The comparison of two floats, read in the other direction. *)
Lemma SFcompare_antisym x y :
  SFcompare y x = CompOpp <$> SFcompare x y.
Proof.
  destruct x as [sx|sx| |sx mx ex], y as [sy|sy| |sy my ey]; simpl;
    try reflexivity;
    try (destruct sx; reflexivity); try (destruct sy; reflexivity);
    try (destruct sx, sy; reflexivity).
  f_equal.
  rewrite (Z.compare_antisym ex ey).
  destruct sx, sy; try reflexivity;
    destruct (ex ?= ey); simpl; try reflexivity;
    rewrite ?CompOpp_involutive, ?Pos.compare_cont_antisym; reflexivity.
Qed.

Lemma SFcompare_nan x y :
  SFcompare x y = None → x = S754_nan ∨ y = S754_nan.
Proof.
  destruct x as [sx|sx| |sx mx ex], y as [sy|sy| |sy my ey]; simpl;
    intros H; try discriminate; auto.
Qed.

Lemma float_is_nan_spec x : PrimFloat.is_nan x = false → Prim2SF x ≠ S754_nan.
Proof.
  unfold PrimFloat.is_nan. rewrite FloatAxioms.eqb_spec. unfold SFeqb.
  intros H Hnan. rewrite Hnan in H. discriminate.
Qed.

(** Without a NaN, [not (x < y)] is [y <= x]. *)
Lemma float_not_ltb_leb x y :
  PrimFloat.is_nan x = false → PrimFloat.is_nan y = false →
  PrimFloat.ltb x y = false → PrimFloat.leb y x = true.
Proof.
  intros Hx%float_is_nan_spec Hy%float_is_nan_spec.
  rewrite FloatAxioms.ltb_spec, FloatAxioms.leb_spec. unfold SFltb, SFleb.
  rewrite (SFcompare_antisym (Prim2SF x) (Prim2SF y)).
  destruct (SFcompare (Prim2SF x) (Prim2SF y)) as [[]|] eqn:Hc; simpl;
    try congruence.
  destruct (SFcompare_nan _ _ Hc); contradiction.
Qed.

Lemma float_ltb_leb x y : PrimFloat.ltb x y = true → PrimFloat.leb x y = true.
Proof.
  rewrite FloatAxioms.ltb_spec, FloatAxioms.leb_spec. unfold SFltb, SFleb.
  destruct (SFcompare _ _) as [[]|]; congruence.
Qed.

(** ** The projection engine *)

Lemma float_truediv_guarded a b :
  PrimFloat.leb b 0%float = false → float_truediv a b = Ok (a / b)%float.
Proof.
  intros Hb. unfold float_truediv. rewrite (float_leb_false_nonzero b Hb). reflexivity.
Qed.

Lemma int_truediv_guarded a b : b ≠ 0 → int_truediv a b = Ok (int_quotient a b).
Proof.
  intros Hb. unfold int_truediv.
  replace (b =? 0) with false by (symmetry; apply Z.eqb_neq; exact Hb). reflexivity.
Qed.

(** The three ways out of [project_skater]. *)
Lemma project_skater_unmatched player stats_key skater_stats team_remaining :
  stats_key ≫= (skater_stats !!.) = None →
  project_skater player stats_key skater_stats team_remaining = Ok (base_projection player).
Proof.
  unfold project_skater. destruct stats_key as [key|]; simpl; [|reflexivity].
  intros ->. reflexivity.
Qed.

Lemma project_skater_idle player key s skater_stats team_remaining :
  skater_stats !! key = Some s →
  PrimFloat.leb (sk_games_played s) 0%float = true →
  project_skater player (Some key) skater_stats team_remaining
  = Ok (found_projection player (sk_nhl_team s)).
Proof. unfold project_skater. intros -> ->. reflexivity. Qed.

Lemma project_skater_active player key s skater_stats team_remaining :
  skater_stats !! key = Some s →
  PrimFloat.leb (sk_games_played s) 0%float = false →
  let remaining := float_of_int (default 0 (team_remaining !! sk_nhl_team s)) in
  let proj_goals := (goals s / sk_games_played s * remaining)%float in
  let proj_assists :=
    ((primary_assists s + secondary_assists s) / sk_games_played s * remaining)%float in
  project_skater player (Some key) skater_stats team_remaining
  = Ok (mkProjection (name player) (position player) (fchl_team player) (sk_nhl_team s)
          proj_goals proj_assists 0%float 0%float
          (proj_goals * 1 + proj_assists * 1)%float true).
Proof.
  intros Hs Hgp. cbv zeta. unfold project_skater. rewrite Hs. cbv zeta. rewrite Hgp.
  rewrite !float_truediv_guarded by exact Hgp. reflexivity.
Qed.

(** The three ways out of [project_goalie]. *)
Lemma project_goalie_unmatched player stats_key goalie_stats gss completed remaining :
  stats_key ≫= (goalie_stats !!.) = None →
  project_goalie player stats_key goalie_stats gss completed remaining
  = Ok (base_projection player).
Proof.
  unfold project_goalie. destruct stats_key as [key|]; simpl; [|reflexivity].
  intros ->. reflexivity.
Qed.

Lemma project_goalie_idle player key g goalie_stats gss completed remaining :
  goalie_stats !! key = Some g →
  starts (schedule_tally gss key (name player)) = 0
  ∨ default 0 (completed !! g_nhl_team g) = 0 →
  project_goalie player (Some key) goalie_stats gss completed remaining
  = Ok (found_projection player (g_nhl_team g)).
Proof.
  unfold project_goalie. intros -> Hzero.
  replace ((starts (schedule_tally gss key (name player)) =? 0)
           || (default 0 (completed !! g_nhl_team g) =? 0)) with true; [reflexivity|].
  symmetry. apply orb_true_iff. destruct Hzero as [H|H]; [left|right]; apply Z.eqb_eq, H.
Qed.

Lemma project_goalie_active player key g goalie_stats gss completed remaining :
  goalie_stats !! key = Some g →
  let sched := schedule_tally gss key (name player) in
  let team_comp := default 0 (completed !! g_nhl_team g) in
  let team_rem := default 0 (remaining !! g_nhl_team g) in
  starts sched ≠ 0 → team_comp ≠ 0 →
  let remaining_starts := (int_quotient (starts sched) team_comp * float_of_int team_rem)%float in
  let proj_wins := (int_quotient (wins sched) (starts sched) * remaining_starts)%float in
  let proj_shutouts := (int_quotient (shutouts sched) (starts sched) * remaining_starts)%float in
  project_goalie player (Some key) goalie_stats gss completed remaining
  = Ok (mkProjection (name player) (position player) (fchl_team player) (g_nhl_team g)
          0%float 0%float proj_wins proj_shutouts
          (proj_wins * 2 + proj_shutouts * 3)%float true).
Proof.
  intros Hg sched team_comp team_rem Hs Hc. cbv zeta.
  unfold project_goalie. rewrite Hg. cbv zeta.
  fold sched team_comp team_rem.
  replace ((starts sched =? 0) || (team_comp =? 0)) with false
    by (symmetry; apply orb_false_iff; split; apply Z.eqb_neq; assumption).
  rewrite !int_truediv_guarded by assumption. reflexivity.
Qed.

(** C8: no input makes [project_skater] or [project_goalie] divide by
    zero: neither ever ends in [ZeroDivisionError], and under each guard
    (games played not above zero; no starts; no completed team game) the
    result is the projection with all five numbers zero. *)
Theorem no_division_by_zero :
  (∀ player stats_key skater_stats team_remaining,
     project_skater player stats_key skater_stats team_remaining ≠ ZeroDivisionError)
  ∧ (∀ player stats_key goalie_stats gss completed remaining,
       project_goalie player stats_key goalie_stats gss completed remaining
       ≠ ZeroDivisionError)
  ∧ (∀ player key s skater_stats team_remaining,
       skater_stats !! key = Some s →
       PrimFloat.eqb (sk_games_played s) 0%float = true
       ∨ PrimFloat.leb (sk_games_played s) 0%float = true →
       ∃ p, project_skater player (Some key) skater_stats team_remaining = Ok p
            ∧ all_zero p)
  ∧ (∀ player key g goalie_stats gss completed remaining,
       goalie_stats !! key = Some g →
       starts (schedule_tally gss key (name player)) = 0
       ∨ default 0 (completed !! g_nhl_team g) = 0 →
       ∃ p, project_goalie player (Some key) goalie_stats gss completed remaining = Ok p
            ∧ all_zero p).
Proof.
  repeat split.
  - intros player [key|] skater_stats team_remaining; [|discriminate].
    destruct (skater_stats !! key) as [s|] eqn:Hs.
    + destruct (PrimFloat.leb (sk_games_played s) 0%float) eqn:Hgp.
      * rewrite (project_skater_idle _ _ _ _ _ Hs Hgp). discriminate.
      * rewrite (project_skater_active _ _ _ _ _ Hs Hgp). discriminate.
    + rewrite project_skater_unmatched by (simpl; exact Hs). discriminate.
  - intros player [key|] goalie_stats gss completed remaining; [|discriminate].
    destruct (goalie_stats !! key) as [g|] eqn:Hg.
    + destruct (Z.eq_dec (starts (schedule_tally gss key (name player))) 0) as [Hs|Hs].
      { rewrite (project_goalie_idle _ _ _ _ _ _ _ Hg (or_introl Hs)). discriminate. }
      destruct (Z.eq_dec (default 0 (completed !! g_nhl_team g)) 0) as [Hc|Hc].
      { rewrite (project_goalie_idle _ _ _ _ _ _ _ Hg (or_intror Hc)). discriminate. }
      rewrite (project_goalie_active _ _ _ _ _ _ _ Hg Hs Hc). discriminate.
    + rewrite project_goalie_unmatched by (simpl; exact Hg). discriminate.
  - intros player key s skater_stats team_remaining Hs Hgp.
    assert (Hguard : PrimFloat.leb (sk_games_played s) 0%float = true)
      by (destruct Hgp as [Hz|Hle]; [apply float_zero_leb, Hz | exact Hle]).
    eexists. split; [apply (project_skater_idle _ _ _ _ _ Hs Hguard)|].
    repeat split.
  - intros player key g goalie_stats gss completed remaining Hg Hzero.
    eexists. split; [apply (project_goalie_idle _ _ _ _ _ _ _ Hg Hzero)|].
    repeat split.
Qed.

Lemma no_division_by_zero_witness :
  ∃ p, project_skater example_skater (Some "John Roe")
         {[ "John Roe" := mkSkater "John Roe" "EDM" 0 0 0 0 ]} example_skater_remaining
       = Ok p
    ∧ all_zero p.
Proof.
  apply (proj1 (proj2 (proj2 no_division_by_zero)) example_skater "John Roe"
           (mkSkater "John Roe" "EDM" 0 0 0 0)).
  - reflexivity.
  - left. reflexivity.
Defined.

(** C4: for a roster player matched to a skater record with
    [games_played > 0], [project_skater] returns
    [proj_goals = goals / games_played * remaining],
    [proj_assists = (primary_assists + secondary_assists) / games_played * remaining]
    and [proj_pts = proj_goals + proj_assists], where [remaining] is the
    remaining-games count of the record's team and 0 for a team the count
    dictionary does not know; the example of the specification yields 5.0,
    4.0 and 9.0. *)
Theorem project_skater_formula :
  (∀ player key s skater_stats team_remaining,
     skater_stats !! key = Some s →
     PrimFloat.ltb 0%float (sk_games_played s) = true →
     ∃ p remaining,
       project_skater player (Some key) skater_stats team_remaining = Ok p
       ∧ remaining = match team_remaining !! sk_nhl_team s with
                     | Some n => float_of_int n
                     | None => float_of_int 0
                     end
       ∧ proj_goals p = (goals s / sk_games_played s * remaining)%float
       ∧ proj_assists p
         = ((primary_assists s + secondary_assists s) / sk_games_played s * remaining)%float
       ∧ proj_pts p = (proj_goals p + proj_assists p)%float
       ∧ found_in_stats p = true)
  ∧ project_skater example_skater (Some "John Roe") example_skater_stats
      example_skater_remaining
    = Ok (mkProjection "John Roe" "F" "BOT" "EDM" 5 4 0 0 9 true).
Proof.
  split; [|vm_compute; reflexivity].
  intros player key s skater_stats team_remaining Hs Hgp.
  apply float_pos_not_leb in Hgp.
  eexists. exists (float_of_int (default 0 (team_remaining !! sk_nhl_team s))).
  split; [apply (project_skater_active _ _ _ _ _ Hs Hgp)|].
  cbn [proj_goals proj_assists proj_pts found_in_stats].
  rewrite !float_mul_one.
  destruct (team_remaining !! sk_nhl_team s); repeat split; reflexivity.
Qed.

Lemma project_skater_formula_witness :
  ∃ p, project_skater example_skater (Some "John Roe") example_skater_stats
         example_skater_remaining = Ok p
    ∧ proj_pts p = (proj_goals p + proj_assists p)%float.
Proof.
  destruct (proj1 project_skater_formula example_skater "John Roe"
              (mkSkater "John Roe" "EDM" 20 10 5 3)
              example_skater_stats example_skater_remaining)
    as (p & remaining & Hp & _ & _ & _ & Hpts & _).
  - reflexivity.
  - reflexivity.
  - exists p. split; assumption.
Defined.

(** C3 (amended): for a roster player matched to a goalie record,
    [project_goalie] reads the tally under the matched key and, when the
    key is absent, under the roster name; with [starts > 0] and a completed
    count above 0 it returns
    [proj_wins = wins / starts * remaining_starts],
    [proj_shutouts = shutouts / starts * remaining_starts] with
    [remaining_starts = starts / team_completed * team_remaining], and
    [proj_pts = 2 * proj_wins + 3 * proj_shutouts].  On the example of the
    specification [remaining_starts] is 12.0 and [proj_pts] is 18.0, while
    [proj_wins] is the double just below 7.2 and [proj_shutouts] the double
    just above 1.2. *)
Theorem project_goalie_formula :
  (∀ player key g goalie_stats gss completed remaining sched,
     goalie_stats !! key = Some g →
     gss !! key = Some sched ∨ (gss !! key = None ∧ gss !! name player = Some sched) →
     0 < starts sched →
     0 < default 0 (completed !! g_nhl_team g) →
     ∃ p remaining_starts,
       project_goalie player (Some key) goalie_stats gss completed remaining = Ok p
       ∧ remaining_starts
         = (int_quotient (starts sched) (default 0%Z (completed !! g_nhl_team g))
            * float_of_int (default 0%Z (remaining !! g_nhl_team g)))%float
       ∧ proj_wins p = (int_quotient (wins sched) (starts sched) * remaining_starts)%float
       ∧ proj_shutouts p
         = (int_quotient (shutouts sched) (starts sched) * remaining_starts)%float
       ∧ proj_pts p = (2 * proj_wins p + 3 * proj_shutouts p)%float)
  ∧ (int_quotient 20 25 * float_of_int 15)%float = 12%float
  ∧ project_goalie example_goalie (Some "Jane Doe") example_goalie_stats
      example_goalie_tallies example_completed example_remaining
    = Ok (mkProjection "Jane Doe" "G" "BOT" "TOR" 0 0
            (PrimFloat.next_down 7.2) (PrimFloat.next_up 1.2) 18 true).
Proof.
  split; [|split; vm_compute; reflexivity].
  intros player key g goalie_stats gss completed remaining sched Hg Hsched Hs Hc.
  assert (Hsame : schedule_tally gss key (name player) = sched).
  { unfold schedule_tally. destruct Hsched as [->|[-> ->]]; reflexivity. }
  pose proof (project_goalie_active player key g goalie_stats gss completed remaining Hg)
    as Hact.
  cbv zeta in Hact. rewrite Hsame in Hact.
  eexists. eexists. split; [apply Hact; lia|].
  split; [reflexivity|].
  cbn [proj_wins proj_shutouts proj_pts].
  rewrite (float_mul_comm 2), (float_mul_comm 3).
  repeat split; reflexivity.
Qed.

Lemma project_goalie_formula_witness :
  ∃ p, project_goalie example_goalie (Some "Jane Doe") example_goalie_stats
         example_goalie_tallies example_completed example_remaining = Ok p
    ∧ proj_pts p = (2 * proj_wins p + 3 * proj_shutouts p)%float.
Proof.
  destruct (proj1 project_goalie_formula example_goalie "Jane Doe"
              (mkGoalie "Jane Doe" "TOR" 20)
              example_goalie_stats example_goalie_tallies example_completed
              example_remaining (mkTally 20 12 2))
    as (p & rs & Hp & _ & _ & _ & Hpts).
  - reflexivity.
  - left. reflexivity.
  - reflexivity.
  - reflexivity.
  - exists p. split; assumption.
Defined.

(** The example values of the specification are not the doubles the code
    returns: 12/20 rounds below 0.6, its product with 12.0 falls halfway
    between two doubles and goes to the even one below 7.2; 2/20 rounds
    above 0.1 and its product with 12.0 goes above 1.2. *)
Lemma goalie_example_counterexample : ¬ goalie_example_as_stated.
Proof.
  intros (p & Hp & Hw & _).
  vm_compute in Hp. injection Hp as <-.
  vm_compute in Hw. discriminate.
Qed.

(** *** Every player gets a projection *)

(** What one turn of the loop of [project_all_players] returns. *)
Lemma project_player_shape player_lookup skater_stats goalie_stats schedule_data player :
  ∃ proj,
    project_player player_lookup skater_stats goalie_stats schedule_data player = Ok proj
    ∧ found_in_stats proj = has_record player_lookup skater_stats goalie_stats player
    ∧ (found_in_stats proj = false → proj = base_projection player)
    ∧ (String.eqb (position player) "G" = false →
       proj_wins proj = 0%float ∧ proj_shutouts proj = 0%float)
    ∧ (String.eqb (position player) "G" = true →
       proj_goals proj = 0%float ∧ proj_assists proj = 0%float).
Proof.
  unfold project_player, has_record.
  destruct (mjoin (player_lookup !! name player)) as [key|];
    destruct (String.eqb (position player) "G") eqn:Hpos.
  - destruct (goalie_stats !! key) as [g|] eqn:Hg.
    + rewrite bool_decide_eq_true_2 by eauto.
      destruct (Z.eq_dec (starts (schedule_tally (goalie_schedule_stats schedule_data)
                                    key (name player))) 0) as [Hs|Hs];
        [|destruct (Z.eq_dec (default 0 (team_completed schedule_data !! g_nhl_team g)) 0)
            as [Hc|Hc]].
      * rewrite (project_goalie_idle _ _ _ _ _ _ _ Hg (or_introl Hs)).
        eexists; repeat split; try reflexivity; discriminate.
      * rewrite (project_goalie_idle _ _ _ _ _ _ _ Hg (or_intror Hc)).
        eexists; repeat split; try reflexivity; discriminate.
      * rewrite (project_goalie_active _ _ _ _ _ _ _ Hg Hs Hc).
        eexists; repeat split; try reflexivity; discriminate.
    + rewrite bool_decide_eq_false_2 by (intros [? ?]; discriminate).
      rewrite project_goalie_unmatched by (simpl; exact Hg).
      eexists; repeat split; try reflexivity; discriminate.
  - destruct (skater_stats !! key) as [s|] eqn:Hs.
    + rewrite bool_decide_eq_true_2 by eauto.
      destruct (PrimFloat.leb (sk_games_played s) 0%float) eqn:Hgp.
      * rewrite (project_skater_idle _ _ _ _ _ Hs Hgp).
        eexists; repeat split; try reflexivity; discriminate.
      * rewrite (project_skater_active _ _ _ _ _ Hs Hgp).
        eexists; repeat split; try reflexivity; discriminate.
    + rewrite bool_decide_eq_false_2 by (intros [? ?]; discriminate).
      rewrite project_skater_unmatched by (simpl; exact Hs).
      eexists; repeat split; try reflexivity; discriminate.
  - eexists; repeat split; try reflexivity; discriminate.
  - eexists; repeat split; try reflexivity; discriminate.
Qed.

(** The loop returns one projection per roster entry, in roster order. *)
Lemma project_all_players_each fchl_roster player_lookup skater_stats goalie_stats
    schedule_data :
  ∃ projections,
    project_all_players fchl_roster player_lookup skater_stats goalie_stats schedule_data
    = Ok projections
    ∧ Forall2 (λ player proj,
                 project_player player_lookup skater_stats goalie_stats schedule_data player
                 = Ok proj)
              fchl_roster projections.
Proof.
  induction fchl_roster as [|player rest (ps & Hps & Hall)].
  - exists []. split; [reflexivity | constructor].
  - destruct (project_player_shape player_lookup skater_stats goalie_stats schedule_data
                player) as (proj & Hproj & _).
    exists (proj :: ps). split.
    + cbn [project_all_players]. rewrite Hproj, Hps. reflexivity.
    + constructor; assumption.
Qed.

Lemma base_projection_all_zero player : all_zero (base_projection player).
Proof. repeat split. Qed.

(** C2 (amended): [project_all_players] returns one projection per roster
    player; its [found_in_stats] is false exactly when the lookup has no
    match for the player's name or the match is not a key of the statistics
    collection of the player's position, and then all five projected
    numbers are zero. *)
Theorem found_in_stats_iff_record fchl_roster player_lookup skater_stats goalie_stats
    schedule_data :
  ∃ projections,
    project_all_players fchl_roster player_lookup skater_stats goalie_stats schedule_data
    = Ok projections
    ∧ length projections = length fchl_roster
    ∧ ∀ i player proj,
        fchl_roster !! i = Some player → projections !! i = Some proj →
        (found_in_stats proj = false
         ↔ mjoin (player_lookup !! name player) = None
           ∨ ∃ key, mjoin (player_lookup !! name player) = Some key
                    ∧ (if String.eqb (position player) "G" then goalie_stats !! key = None
                       else skater_stats !! key = None))
        ∧ (found_in_stats proj = false → all_zero proj).
Proof.
  destruct (project_all_players_each fchl_roster player_lookup skater_stats goalie_stats
              schedule_data) as (ps & Hps & Hall).
  exists ps. split; [exact Hps|]. split; [symmetry; eapply Forall2_length, Hall|].
  intros i player proj Hi Hj.
  pose proof (Forall2_lookup_lr _ _ _ _ _ _ Hall Hi Hj) as Hproj.
  destruct (project_player_shape player_lookup skater_stats goalie_stats schedule_data
              player) as (proj' & Hproj' & Hfound & Hbase & _).
  assert (proj' = proj) as -> by congruence.
  split.
  - rewrite Hfound. unfold has_record.
    destruct (mjoin (player_lookup !! name player)) as [key|]; [|split; auto].
    destruct (String.eqb (position player) "G").
    + rewrite bool_decide_eq_false, <- eq_None_not_Some. split.
      * intros Hnone. right. exists key. auto.
      * intros [?|(k & [= <-] & Hnone)]; [discriminate | exact Hnone].
    + rewrite bool_decide_eq_false, <- eq_None_not_Some. split.
      * intros Hnone. right. exists key. auto.
      * intros [?|(k & [= <-] & Hnone)]; [discriminate | exact Hnone].
  - intros Hf. rewrite (Hbase Hf). apply base_projection_all_zero.
Qed.

Lemma found_in_stats_iff_record_witness :
  ∃ proj,
    project_all_players [example_skater] {[ "John Roe" := Some "John Roe" ]}
      example_skater_stats ∅ empty_schedule = Ok [proj]
    ∧ found_in_stats proj = true.
Proof.
  destruct (found_in_stats_iff_record [example_skater] {[ "John Roe" := Some "John Roe" ]}
              example_skater_stats ∅ empty_schedule) as (ps & Hps & Hlen & Hall).
  destruct ps as [|proj [|? ?]]; try discriminate Hlen.
  exists proj. split; [exact Hps|].
  destruct (Hall 0%nat example_skater proj eq_refl eq_refl) as [Hiff _].
  destruct (found_in_stats proj); [reflexivity|].
  destruct (proj1 Hiff eq_refl) as [Hnone|(key & Hkey & Hnone)].
  - discriminate Hnone.
  - injection Hkey as <-. discriminate Hnone.
Defined.

(** The statement of the specification fails when the lookup has a match
    that is not a key of the collection of the player's position.  The
    roster has a skater and a goalie of one name; the matcher, which keys
    the lookup by name alone, records the exact match of the skater; the
    goalie has that match in the lookup and is not found in the goalie
    statistics. *)
Lemma found_iff_matched_counterexample :
  ¬ found_iff_matched
      [example_skater; mkPlayer "G John Roe" "John Roe" "G" "GVR"]
      (build_player_lookup no_fuzzy_match
         [example_skater; mkPlayer "G John Roe" "John Roe" "G" "GVR"]
         example_skater_stats ∅)
      example_skater_stats ∅ empty_schedule.
Proof.
  intros (ps & Hps & Hall).
  vm_compute in Hps. injection Hps as <-.
  destruct (Hall 1%nat _ _ eq_refl eq_refl) as [[Hiff _] _].
  specialize (Hiff eq_refl). vm_compute in Hiff. discriminate.
Qed.

(** C10: in the list [project_all_players] returns, the projection of a
    player whose position is not "G" has [proj_wins = proj_shutouts = 0.0],
    and the projection of a player whose position is "G" has
    [proj_goals = proj_assists = 0.0]. *)
Theorem position_decides_fields fchl_roster player_lookup skater_stats goalie_stats
    schedule_data :
  ∃ projections,
    project_all_players fchl_roster player_lookup skater_stats goalie_stats schedule_data
    = Ok projections
    ∧ length projections = length fchl_roster
    ∧ ∀ i player proj,
        fchl_roster !! i = Some player → projections !! i = Some proj →
        (position player ≠ "G" → proj_wins proj = 0%float ∧ proj_shutouts proj = 0%float)
        ∧ (position player = "G" → proj_goals proj = 0%float ∧ proj_assists proj = 0%float).
Proof.
  destruct (project_all_players_each fchl_roster player_lookup skater_stats goalie_stats
              schedule_data) as (ps & Hps & Hall).
  exists ps. split; [exact Hps|]. split; [symmetry; eapply Forall2_length, Hall|].
  intros i player proj Hi Hj.
  pose proof (Forall2_lookup_lr _ _ _ _ _ _ Hall Hi Hj) as Hproj.
  destruct (project_player_shape player_lookup skater_stats goalie_stats schedule_data
              player) as (proj' & Hproj' & _ & _ & Hskater & Hgoalie).
  assert (proj' = proj) as -> by congruence.
  split.
  - intros Hpos. apply Hskater, String.eqb_neq, Hpos.
  - intros Hpos. apply Hgoalie, String.eqb_eq, Hpos.
Qed.

Lemma position_decides_fields_witness :
  ∃ proj,
    project_all_players [example_goalie] {[ "Jane Doe" := Some "Jane Doe" ]}
      ∅ example_goalie_stats
      (mkSchedule example_completed example_remaining example_goalie_tallies) = Ok [proj]
    ∧ proj_goals proj = 0%float ∧ proj_assists proj = 0%float.
Proof.
  destruct (position_decides_fields [example_goalie] {[ "Jane Doe" := Some "Jane Doe" ]}
              ∅ example_goalie_stats
              (mkSchedule example_completed example_remaining example_goalie_tallies))
    as (ps & Hps & Hlen & Hall).
  destruct ps as [|proj [|? ?]]; try discriminate Hlen.
  exists proj. split; [exact Hps|].
  exact (proj2 (Hall 0%nat example_goalie proj eq_refl eq_refl) eq_refl).
Defined.

(** ** The standings aggregator *)

Section Standings.

Implicit Types (team_proj : gmap string float) (projections : list PlayerProjection).

(** The first loop: the keys it leaves in [team_proj]. *)
Lemma dom_fold_add_projection projections : ∀ team_proj,
  dom (fold_left add_projection projections team_proj)
  = dom team_proj ∪ teams_of projections.
Proof.
  unfold teams_of.
  induction projections as [|proj projections IH]; intros team_proj.
  - cbn [fold_left]. change (list_to_set (p_fchl_team <$> [])) with (∅ : gset string).
    rewrite (right_id_L ∅ (∪)). reflexivity.
  - cbn [fold_left]. rewrite IH. unfold add_projection.
    rewrite dom_insert_L, fmap_cons, list_to_set_cons.
    rewrite (comm_L (∪) {[p_fchl_team proj]} (dom team_proj)).
    rewrite (assoc_L (∪)). reflexivity.
Qed.

(** The first loop: the sum it keeps for each team. *)
Lemma lookup_fold_add_projection projections : ∀ team_proj team,
  default 0%float (fold_left add_projection projections team_proj !! team)
  = team_points_from (default 0%float (team_proj !! team)) projections team.
Proof.
  unfold team_points_from.
  induction projections as [|proj projections IH]; intros team_proj team.
  - reflexivity.
  - cbn [fold_left]. rewrite IH. f_equal.
    unfold add_projection.
    destruct (String.eqb (p_fchl_team proj) team) eqn:Hteam.
    + apply String.eqb_eq in Hteam. subst team. rewrite lookup_insert_eq. reflexivity.
    + apply String.eqb_neq in Hteam. rewrite lookup_insert_ne by assumption. reflexivity.
Qed.

(** The sort rearranges and loses nothing. *)
Lemma insert_desc_perm x l : insert_desc x l ≡ₚ x :: l.
Proof.
  induction l as [|y l IH]; [reflexivity|].
  cbn [insert_desc]. destruct (PrimFloat.ltb (proj_total x) (proj_total y)).
  - rewrite IH. apply perm_swap.
  - reflexivity.
Qed.

Lemma sort_desc_perm l : sort_desc l ≡ₚ l.
Proof.
  induction l as [|x l IH]; [reflexivity|].
  cbn [sort_desc foldr]. fold (sort_desc l).
  rewrite insert_desc_perm, IH. reflexivity.
Qed.

(** Without a NaN among the keys the sort puts them in descending order. *)
Lemma insert_desc_hd a x l :
  PrimFloat.leb (proj_total x) (proj_total a) = true →
  HdRel (λ a b, PrimFloat.leb (proj_total b) (proj_total a) = true) a l →
  HdRel (λ a b, PrimFloat.leb (proj_total b) (proj_total a) = true) a (insert_desc x l).
Proof.
  intros Hx Hl. destruct l as [|y l]; cbn [insert_desc].
  - constructor. exact Hx.
  - destruct (PrimFloat.ltb (proj_total x) (proj_total y)); constructor.
    + inversion Hl; assumption.
    + exact Hx.
Qed.

Lemma insert_desc_sorted x l :
  PrimFloat.is_nan (proj_total x) = false →
  Forall (λ s, PrimFloat.is_nan (proj_total s) = false) l →
  descending l → descending (insert_desc x l).
Proof.
  unfold descending. intros Hx Hnan Hl.
  induction l as [|y l IH]; cbn [insert_desc].
  - repeat constructor.
  - inversion Hnan as [|? ? Hy Hrest]; subst.
    inversion Hl as [|? ? Hsorted Hhd]; subst.
    destruct (PrimFloat.ltb (proj_total x) (proj_total y)) eqn:Hlt.
    + constructor; [apply IH; assumption|].
      apply insert_desc_hd; [apply float_ltb_leb, Hlt | exact Hhd].
    + constructor; [exact Hl|]. constructor.
      apply float_not_ltb_leb; assumption.
Qed.

Lemma sort_desc_sorted l :
  Forall (λ s, PrimFloat.is_nan (proj_total s) = false) l → descending (sort_desc l).
Proof.
  induction l as [|x l IH]; intros Hnan.
  - constructor.
  - inversion Hnan as [|? ? Hx Hrest]; subst.
    cbn [sort_desc foldr]. fold (sort_desc l).
    apply insert_desc_sorted; [exact Hx | | apply IH, Hrest].
    rewrite sort_desc_perm. exact Hrest.
Qed.

End Standings.

Lemma compute_standings_teams set_iter projections current :
  ts_fchl_team <$> compute_standings set_iter projections current
  ≡ₚ set_iter (teams_of projections ∪ dom current).
Proof.
  unfold compute_standings.
  rewrite sort_desc_perm, <- list_fmap_compose, dom_fold_add_projection.
  rewrite dom_empty_L, (left_id_L ∅ (∪)).
  erewrite list_fmap_ext; [rewrite list_fmap_id; reflexivity|].
  intros i team _. reflexivity.
Qed.

Lemma compute_standings_entry set_iter projections current s :
  s ∈ compute_standings set_iter projections current →
  s = mkStanding (ts_fchl_team s)
        (default 0 (current !! ts_fchl_team s))
        (team_points projections (ts_fchl_team s))
        (float_of_int (default 0%Z (current !! ts_fchl_team s))
         + team_points projections (ts_fchl_team s))%float.
Proof.
  unfold compute_standings. rewrite sort_desc_perm.
  intros (team & -> & _)%list_elem_of_fmap.
  unfold standing_of. cbn [ts_fchl_team].
  rewrite lookup_fold_add_projection, lookup_empty. reflexivity.
Qed.

(** X26: what [compute_standings] does keep.  It returns exactly one
    standing for every fantasy team of the union of the teams in the
    projections and the keys of the baseline; its [current_pts] is the
    baseline of the team (0 without one), its [proj_remaining] the sum of
    the projected points of the team's players (0.0 without one), and its
    [proj_total] their sum; the result is in descending order of
    [proj_total] whenever no total is a NaN; and the example of the
    specification yields [B(910.0), A(850.0)], in whatever order the set
    of teams is iterated. *)
Theorem compute_standings_ranked set_iter projections current :
  (∀ X, set_iter X ≡ₚ elements X) →
  ts_fchl_team <$> compute_standings set_iter projections current
    ≡ₚ elements (teams_of projections ∪ dom current)
  ∧ (∀ s, s ∈ compute_standings set_iter projections current →
       current_pts s = default 0 (current !! ts_fchl_team s)
       ∧ proj_remaining s = team_points projections (ts_fchl_team s)
       ∧ proj_total s = (float_of_int (current_pts s) + proj_remaining s)%float)
  ∧ (Forall (λ s, PrimFloat.is_nan (proj_total s) = false)
            (compute_standings set_iter projections current) →
     descending (compute_standings set_iter projections current))
  ∧ compute_standings set_iter example_projections example_baseline
    = [mkStanding "B" 900 10 910; mkStanding "A" 800 50 850].
Proof.
  intros Hiter. split; [|split; [|split]].
  - rewrite compute_standings_teams. apply Hiter.
  - intros s Hs. rewrite (compute_standings_entry _ _ _ _ Hs).
    cbn [current_pts proj_remaining proj_total ts_fchl_team]. repeat split.
  - unfold compute_standings. intros Hnan. apply sort_desc_sorted.
    rewrite sort_desc_perm in Hnan. exact Hnan.
  - unfold compute_standings.
    remember (dom (fold_left add_projection example_projections ∅) ∪ dom example_baseline)
      as X eqn:HX.
    assert (Hel : elements X = ["B"; "A"] ∨ elements X = ["A"; "B"]).
    { subst X. vm_compute. auto. }
    pose proof (Hiter X) as Hperm.
    assert (Hset : set_iter X = ["A"; "B"] ∨ set_iter X = ["B"; "A"]).
    { destruct Hel as [Hel|Hel]; rewrite Hel in Hperm;
        apply Permutation_sym, Permutation_length_2_inv in Hperm;
        destruct Hperm; auto. }
    destruct Hset as [-> | ->]; vm_compute; reflexivity.
Qed.

Lemma compute_standings_ranked_witness :
  compute_standings elements example_projections example_baseline
  = [mkStanding "B" 900 10 910; mkStanding "A" 800 50 850].
Proof.
  refine (proj2 (proj2 (proj2 (compute_standings_ranked elements example_projections
                                 example_baseline _)))).
  intros X. reflexivity.
Defined.

(** C9: the statement of the specification fails when a projected total is
    a NaN.  A skater whose statistics row has no games-played value passes
    the guard [gp <= 0] and is projected to NaN points, so the total of the
    skater's team is NaN.  No comparison with a NaN holds, the sort moves
    nothing, and the team with 5.0 points stays ranked above the team with
    9.0 points. *)
Lemma standings_sorted_counterexample :
  ∃ projections first second third,
    project_all_players nan_roster nan_lookup nan_skater_stats ∅ nan_schedule
    = Ok projections
    ∧ compute_standings elements projections ∅ = [first; second; third]
    ∧ proj_total first = 5%float
    ∧ PrimFloat.is_nan (proj_total second) = true
    ∧ proj_total third = 9%float
    ∧ ¬ standings_sorted elements projections ∅.
Proof.
  eexists. eexists. eexists. eexists.
  split; [vm_compute; reflexivity|].
  split; [vm_compute; reflexivity|].
  split; [reflexivity|]. split; [reflexivity|]. split; [reflexivity|].
  unfold standings_sorted, descending.
  intros Hsorted. vm_compute in Hsorted.
  inversion Hsorted as [|? ? _ Hhd]; subst.
  inversion Hhd as [|? ? Hle]; subst.
  vm_compute in Hle. discriminate.
Qed.

(* ===================================================================== *)
(** * Further properties of the code *)
(* ===================================================================== *)

(** ** The schedule derivation, team by team *)

Lemma lookup_count_game abbr (counts : gmap string Z) team :
  default 0 (count_game abbr counts !! team)
  = default 0 (counts !! team) + plays abbr team.
Proof.
  unfold count_game, plays, recognized.
  destruct abbr as [a|]; [|cbn [andb]; lia].
  destruct (PyStr.truthy a); [|cbn [andb]; lia].
  cbn [andb]. destruct (decide (a = team)) as [->|Hne].
  - rewrite lookup_insert_eq, bool_decide_eq_true_2 by reflexivity. reflexivity.
  - rewrite lookup_insert_ne by assumption.
    rewrite bool_decide_eq_false_2 by congruence. lia.
Qed.

Lemma completed_row_step st row team :
  default 0 (team_completed (schedule_row st row) !! team)
  = default 0 (team_completed st !! team) + games_in completed_row row team.
Proof.
  unfold schedule_row, games_in, completed_row.
  destruct (length row <? 8)%nat eqn:Hlen.
  - apply Nat.ltb_lt in Hlen.
    replace (8 <=? length row)%nat with false by (symmetry; apply Nat.leb_gt; lia).
    cbn [andb]. lia.
  - apply Nat.ltb_ge in Hlen.
    replace (8 <=? length row)%nat with true by (symmetry; apply Nat.leb_le; lia).
    destruct (String.eqb (status_of row) "Scheduled");
      cbn [andb negb team_completed]; [lia|].
    destruct (v_score_of row), (h_score_of row); cbn [team_completed];
      rewrite !lookup_count_game; lia.
Qed.

Lemma remaining_row_step st row team :
  default 0 (team_remaining (schedule_row st row) !! team)
  = default 0 (team_remaining st !! team) + games_in scheduled_row row team.
Proof.
  unfold schedule_row, games_in, scheduled_row.
  destruct (length row <? 8)%nat eqn:Hlen.
  - apply Nat.ltb_lt in Hlen.
    replace (8 <=? length row)%nat with false by (symmetry; apply Nat.leb_gt; lia).
    cbn [andb]. lia.
  - apply Nat.ltb_ge in Hlen.
    replace (8 <=? length row)%nat with true by (symmetry; apply Nat.leb_le; lia).
    destruct (String.eqb (status_of row) "Scheduled"); cbn [andb negb team_remaining].
    + rewrite !lookup_count_game. lia.
    + destruct (v_score_of row), (h_score_of row); cbn [team_remaining]; lia.
Qed.

Lemma team_counts_fold body team : ∀ st,
  default 0 (team_completed (fold_left schedule_row body st) !! team)
  = default 0 (team_completed st !! team)
    + sum_over (λ row, games_in completed_row row team) body
  ∧ default 0 (team_remaining (fold_left schedule_row body st) !! team)
    = default 0 (team_remaining st !! team)
      + sum_over (λ row, games_in scheduled_row row team) body.
Proof.
  induction body as [|row body IH]; intros st.
  - cbn. lia.
  - cbn [fold_left sum_over foldr]. destruct (IH (schedule_row st row)) as [IHc IHr].
    rewrite IHc, IHr, completed_row_step, remaining_row_step.
    fold (sum_over (λ row, games_in completed_row row team) body).
    fold (sum_over (λ row, games_in scheduled_row row team) body). lia.
Qed.

(** X1: the count [load_schedule] keeps for a team ([counts.get(team, 0)])
    is the number of times the team is the visitor plus the number of
    times it is the home team, over the completed rows for the completed
    count and over the rows not yet played for the remaining count. *)
Theorem team_counts_per_team header body team :
  ∃ sd, load_schedule (header :: body) = Some sd
    ∧ default 0 (team_completed sd !! team)
      = sum_over (λ row, games_in completed_row row team) body
    ∧ default 0 (team_remaining sd !! team)
      = sum_over (λ row, games_in scheduled_row row team) body.
Proof.
  eexists. split; [reflexivity|].
  destruct (team_counts_fold body team empty_schedule) as [Hc Hr].
  rewrite Hc, Hr. cbn [empty_schedule team_completed team_remaining].
  rewrite lookup_empty. split; reflexivity.
Qed.

Lemma count_game_abbreviations full_name counts :
  abbreviations_counted counts →
  abbreviations_counted (count_game (NHL_TEAM_MAP !! full_name) counts).
Proof.
  intros Hgood team n. unfold count_game.
  destruct (NHL_TEAM_MAP !! full_name) as [a|] eqn:Hfull; [|apply Hgood].
  destruct (PyStr.truthy a); [|apply Hgood].
  destruct (decide (a = team)) as [->|Hne].
  - rewrite lookup_insert_eq. intros [= <-]. split; [|eauto].
    destruct (counts !! team) as [m|] eqn:Hm; unfold default, from_option, id; [|lia].
    destruct (Hgood team m Hm). lia.
  - rewrite lookup_insert_ne by assumption. apply Hgood.
Qed.

Lemma schedule_row_abbreviations st row :
  abbreviations_counted (team_completed st) ∧ abbreviations_counted (team_remaining st) →
  abbreviations_counted (team_completed (schedule_row st row))
  ∧ abbreviations_counted (team_remaining (schedule_row st row)).
Proof.
  intros [Hc Hr]. unfold schedule_row.
  destruct (length row <? 8)%nat; [split; assumption|].
  unfold visitor_abbr_of, home_abbr_of.
  destruct (String.eqb (status_of row) "Scheduled").
  - cbn [team_completed team_remaining]. split; [assumption|].
    auto using count_game_abbreviations.
  - destruct (v_score_of row), (h_score_of row); cbn [team_completed team_remaining];
      (split; [auto using count_game_abbreviations | assumption]).
Qed.

Lemma schedule_fold_abbreviations rows :
  abbreviations_counted (team_completed (fold_left schedule_row rows empty_schedule))
  ∧ abbreviations_counted (team_remaining (fold_left schedule_row rows empty_schedule)).
Proof.
  assert (Hfold : ∀ rows st,
    abbreviations_counted (team_completed st) ∧ abbreviations_counted (team_remaining st) →
    abbreviations_counted (team_completed (fold_left schedule_row rows st))
    ∧ abbreviations_counted (team_remaining (fold_left schedule_row rows st))).
  { clear rows. induction rows as [|row rows IH]; intros st Hst; [exact Hst|].
    cbn [fold_left]. apply IH, schedule_row_abbreviations, Hst. }
  apply Hfold. split; intros team n Hn; cbn in Hn; rewrite lookup_empty in Hn;
    discriminate.
Qed.

(** X2: the two count dictionaries [load_schedule] returns hold only
    abbreviations of [NHL_TEAM_MAP] as keys, never a team name the table
    does not know, and every count they hold is at least 1. *)
Theorem team_counts_keys header body :
  ∃ sd, load_schedule (header :: body) = Some sd
    ∧ abbreviations_counted (team_completed sd)
    ∧ abbreviations_counted (team_remaining sd).
Proof.
  eexists. split; [reflexivity|]. apply schedule_fold_abbreviations.
Qed.

(** ** The schedule derivation, goalie by goalie *)

Lemma tally_of_bump f n gs m :
  tally_of (bump f n gs) m = if decide (n = m) then f (tally_of gs n) else tally_of gs m.
Proof. unfold tally_of. rewrite lookup_bump. case_decide; reflexivity. Qed.

Lemma slot_eq named goalie :
  slot named goalie = if PyStr.truthy named then if decide (named = goalie) then 1 else 0 else 0.
Proof.
  unfold slot. destruct (PyStr.truthy named); cbn [andb]; [|reflexivity].
  destruct (String.eqb_spec named goalie); case_decide; congruence.
Qed.

(** What one tallied row does to the tally of a goalie. *)
Lemma tally_of_goalie_row vg hg v h gs g :
  tally_of (goalie_row vg hg v h gs) g
  = mkTally
      (starts (tally_of gs g) + (slot vg g + slot hg g))
      (wins (tally_of gs g)
       + (if PyStr.truthy vg && PyStr.truthy hg then
            if h <? v then slot vg g else slot hg g
          else 0))
      (shutouts (tally_of gs g)
       + ((if v =? 0 then slot hg g else 0) + (if h =? 0 then slot vg g else 0))).
Proof.
  unfold goalie_row. rewrite !slot_eq.
  destruct (PyStr.truthy vg), (PyStr.truthy hg), (h <? v), (v =? 0), (h =? 0);
    cbn [andb]; rewrite ?tally_of_bump;
    repeat case_decide; subst; try congruence;
    destruct (tally_of gs g) as [s w o]; unfold add_start, add_win, add_shutout;
    cbn [starts wins shutouts]; f_equal; lia.
Qed.

Lemma goalie_stats_step st row :
  goalie_schedule_stats (schedule_row st row)
  = match parsed_scores row with
    | Some (v, h) =>
        goalie_row (visitor_goalie_of row) (home_goalie_of row) v h (goalie_schedule_stats st)
    | None => goalie_schedule_stats st
    end.
Proof.
  unfold schedule_row, parsed_scores, completed_row.
  destruct (length row <? 8)%nat eqn:Hlen.
  - apply Nat.ltb_lt in Hlen.
    replace (8 <=? length row)%nat with false by (symmetry; apply Nat.leb_gt; lia).
    reflexivity.
  - apply Nat.ltb_ge in Hlen.
    replace (8 <=? length row)%nat with true by (symmetry; apply Nat.leb_le; lia).
    destruct (String.eqb (status_of row) "Scheduled"); cbn [andb negb]; [reflexivity|].
    destruct (v_score_of row), (h_score_of row); reflexivity.
Qed.

Lemma tally_step st row g :
  tally_of (goalie_schedule_stats (schedule_row st row)) g
  = mkTally (starts (tally_of (goalie_schedule_stats st) g) + starts_in row g)
            (wins (tally_of (goalie_schedule_stats st) g) + wins_in row g)
            (shutouts (tally_of (goalie_schedule_stats st) g) + shutouts_in row g).
Proof.
  rewrite goalie_stats_step. unfold starts_in, wins_in, shutouts_in.
  destruct (parsed_scores row) as [[v h]|].
  - apply tally_of_goalie_row.
  - destruct (tally_of (goalie_schedule_stats st) g) as [s w o].
    cbn [starts wins shutouts]. f_equal; lia.
Qed.

Lemma tally_fold body g : ∀ st,
  tally_of (goalie_schedule_stats (fold_left schedule_row body st)) g
  = mkTally
      (starts (tally_of (goalie_schedule_stats st) g) + sum_over (λ row, starts_in row g) body)
      (wins (tally_of (goalie_schedule_stats st) g) + sum_over (λ row, wins_in row g) body)
      (shutouts (tally_of (goalie_schedule_stats st) g)
       + sum_over (λ row, shutouts_in row g) body).
Proof.
  induction body as [|row body IH]; intros st.
  - cbn [fold_left]. destruct (tally_of (goalie_schedule_stats st) g) as [s w o].
    unfold sum_over. cbn [foldr starts wins shutouts]. f_equal; lia.
  - cbn [fold_left]. unfold sum_over. cbn [foldr]. rewrite IH, tally_step.
    cbn [starts wins shutouts].
    fold (sum_over (λ row, starts_in row g) body).
    fold (sum_over (λ row, wins_in row g) body).
    fold (sum_over (λ row, shutouts_in row g) body).
    f_equal; lia.
Qed.

(** X3: the tally [load_schedule] keeps for a goalie counts, over the
    completed rows whose two scores parse: as starts, the rows that name
    the goalie as visitor goalie plus those that name the goalie as home
    goalie; as wins, the rows with both goalies named in which the goalie
    is on the side the comparison of the scores selects; as shutouts, the
    rows in which the goalie's opponents scored 0.  A goalie no such row
    names has no start, win or shutout. *)
Theorem goalie_tally_counts header body goalie :
  ∃ sd, load_schedule (header :: body) = Some sd
    ∧ tally_of (goalie_schedule_stats sd) goalie
      = mkTally (sum_over (λ row, starts_in row goalie) body)
                (sum_over (λ row, wins_in row goalie) body)
                (sum_over (λ row, shutouts_in row goalie) body).
Proof.
  eexists. split; [reflexivity|].
  rewrite tally_fold. unfold tally_of.
  cbn [empty_schedule goalie_schedule_stats]. rewrite lookup_empty. reflexivity.
Qed.

Lemma slot_cases named goalie :
  slot named goalie = 0 ∨ (slot named goalie = 1 ∧ named = goalie ∧ goalie ≠ "").
Proof.
  rewrite slot_eq. destruct (PyStr.truthy named) eqn:Hn; [|auto].
  case_decide; [|auto]. subst. right. repeat split.
  intros ->. discriminate Hn.
Qed.

Lemma lookup_goalie_row_none vg hg v h gs g :
  gs !! g = None → slot vg g = 0 → slot hg g = 0 →
  goalie_row vg hg v h gs !! g = None.
Proof.
  rewrite !slot_eq. unfold goalie_row. intros Hg Hv Hh.
  destruct (PyStr.truthy vg), (PyStr.truthy hg), (h <? v), (v =? 0), (h =? 0);
    cbn [andb]; rewrite ?lookup_bump;
    repeat case_decide; subst; try congruence; lia.
Qed.

Lemma goalie_row_sound vg hg v h gs :
  tallies_sound gs → tallies_sound (goalie_row vg hg v h gs).
Proof.
  intros Hsound g t Hlook.
  assert (Ht : t = tally_of (goalie_row vg hg v h gs) g)
    by (unfold tally_of; rewrite Hlook; reflexivity).
  rewrite tally_of_goalie_row in Ht. subst t. cbn [starts wins shutouts].
  destruct (gs !! g) as [t0|] eqn:Hg.
  - destruct (Hsound g t0 Hg) as (Hname & Hs & Hw & Ho).
    unfold tally_of. rewrite Hg. cbn [default from_option id].
    split; [exact Hname|].
    destruct (slot_cases vg g) as [->|(-> & _)], (slot_cases hg g) as [->|(-> & _)];
      destruct (PyStr.truthy vg && PyStr.truthy hg), (h <? v), (v =? 0), (h =? 0); lia.
  - unfold tally_of. rewrite Hg. cbn [default from_option id starts wins shutouts].
    destruct (slot_cases vg g) as [Hv|(Hv & _ & Hname)],
             (slot_cases hg g) as [Hh|(Hh & _ & Hname')].
    + rewrite (lookup_goalie_row_none vg hg v h gs g Hg Hv Hh) in Hlook. discriminate.
    + split; [exact Hname'|]. rewrite Hv, Hh.
      destruct (PyStr.truthy vg && PyStr.truthy hg), (h <? v), (v =? 0), (h =? 0); lia.
    + split; [exact Hname|]. rewrite Hv, Hh.
      destruct (PyStr.truthy vg && PyStr.truthy hg), (h <? v), (v =? 0), (h =? 0); lia.
    + split; [exact Hname|]. rewrite Hv, Hh.
      destruct (PyStr.truthy vg && PyStr.truthy hg), (h <? v), (v =? 0), (h =? 0); lia.
Qed.

Lemma schedule_fold_sound rows : ∀ st,
  tallies_sound (goalie_schedule_stats st) →
  tallies_sound (goalie_schedule_stats (fold_left schedule_row rows st)).
Proof.
  induction rows as [|row rows IH]; intros st Hst; [exact Hst|].
  cbn [fold_left]. apply IH. rewrite goalie_stats_step.
  destruct (parsed_scores row) as [[v h]|]; [apply goalie_row_sound|]; exact Hst.
Qed.

Lemma empty_tallies_sound : tallies_sound ∅.
Proof. intros g t Hg. rewrite lookup_empty in Hg. discriminate. Qed.

(** X4: in the tallies [load_schedule] returns there is no entry under the
    empty name, every goalie with an entry has at least one start, and the
    wins and the shutouts of a goalie are between 0 and the goalie's
    starts. *)
Theorem goalie_tallies_sound header body :
  ∃ sd, load_schedule (header :: body) = Some sd
    ∧ tallies_sound (goalie_schedule_stats sd).
Proof.
  eexists. split; [reflexivity|].
  apply schedule_fold_sound, empty_tallies_sound.
Qed.

Lemma goalie_stats_fold_filter body : ∀ st st',
  goalie_schedule_stats st = goalie_schedule_stats st' →
  goalie_schedule_stats (fold_left schedule_row body st)
  = goalie_schedule_stats
      (fold_left schedule_row (filter (λ row, tallied_row row = true) body) st').
Proof.
  induction body as [|row body IH]; intros st st' Hst; [exact Hst|].
  cbn [fold_left]. rewrite filter_cons.
  case_decide as Hrow; unfold tallied_row in Hrow.
  - cbn [fold_left]. apply IH. rewrite !goalie_stats_step, Hst. reflexivity.
  - apply IH. rewrite goalie_stats_step.
    destruct (parsed_scores row) as [[v h]|]; [congruence | exact Hst].
Qed.

(** X5: the goalie tallies depend only on the completed rows whose two
    scores parse: rows not yet played, rows with fewer than 8 fields and
    completed rows with a score that is not an integer can be taken out of
    the file without changing any goalie's starts, wins or shutouts. *)
Theorem goalie_tallies_ignore_other_rows header body :
  ∃ sd sd',
    load_schedule (header :: body) = Some sd
    ∧ load_schedule (header :: filter (λ row, tallied_row row = true) body) = Some sd'
    ∧ goalie_schedule_stats sd = goalie_schedule_stats sd'.
Proof.
  eexists. eexists. split; [reflexivity|]. split; [reflexivity|].
  apply goalie_stats_fold_filter. reflexivity.
Qed.

(** ** The schedule derivation does not depend on the order of the rows *)

Lemma sum_over_perm f rows rows' :
  rows ≡ₚ rows' → sum_over f rows = sum_over f rows'.
Proof.
  unfold sum_over. induction 1 as [|row l l' _ IH|row1 row2 l|l1 l2 l3 _ IH1 _ IH2];
    cbn [foldr]; lia.
Qed.

Lemma counts_ext (m1 m2 : gmap string Z) :
  abbreviations_counted m1 → abbreviations_counted m2 →
  (∀ team, default 0 (m1 !! team) = default 0 (m2 !! team)) → m1 = m2.
Proof.
  intros H1 H2 Heq. apply map_eq. intros team. specialize (Heq team).
  destruct (m1 !! team) as [n1|] eqn:E1, (m2 !! team) as [n2|] eqn:E2;
    cbn [default from_option id] in Heq.
  - congruence.
  - destruct (H1 team n1 E1). lia.
  - destruct (H2 team n2 E2). lia.
  - reflexivity.
Qed.

Lemma tallies_ext (m1 m2 : gmap string GoalieTally) :
  tallies_sound m1 → tallies_sound m2 →
  (∀ goalie, tally_of m1 goalie = tally_of m2 goalie) → m1 = m2.
Proof.
  intros H1 H2 Heq. apply map_eq. intros g. specialize (Heq g).
  unfold tally_of in Heq.
  destruct (m1 !! g) as [t1|] eqn:E1, (m2 !! g) as [t2|] eqn:E2;
    cbn [default from_option id] in Heq.
  - congruence.
  - destruct (H1 g t1 E1) as (_ & Hs & _). subst t1. cbn in Hs. lia.
  - destruct (H2 g t2 E2) as (_ & Hs & _). subst t2. cbn in Hs. lia.
  - reflexivity.
Qed.

(** X6: [load_schedule] returns the same three dictionaries for two files
    that hold the same rows in a different order, whatever their header
    rows are. *)
Theorem schedule_order_irrelevant header header' body body' :
  body ≡ₚ body' →
  load_schedule (header :: body) = load_schedule (header' :: body').
Proof.
  intros Hperm. cbn [load_schedule]. f_equal.
  destruct (schedule_fold_abbreviations body) as [Hc Hr].
  destruct (schedule_fold_abbreviations body') as [Hc' Hr'].
  pose proof (schedule_fold_sound body empty_schedule empty_tallies_sound) as Hg.
  pose proof (schedule_fold_sound body' empty_schedule empty_tallies_sound) as Hg'.
  destruct (fold_left schedule_row body empty_schedule) as [c r g] eqn:E.
  destruct (fold_left schedule_row body' empty_schedule) as [c' r' g'] eqn:E'.
  cbn [team_completed team_remaining goalie_schedule_stats] in *.
  f_equal.
  - apply counts_ext; [assumption..|]. intros team.
    destruct (team_counts_fold body team empty_schedule) as [H _].
    destruct (team_counts_fold body' team empty_schedule) as [H' _].
    rewrite E in H. rewrite E' in H'. cbn [team_completed] in H, H'.
    rewrite H, H'. f_equal. apply sum_over_perm, Hperm.
  - apply counts_ext; [assumption..|]. intros team.
    destruct (team_counts_fold body team empty_schedule) as [_ H].
    destruct (team_counts_fold body' team empty_schedule) as [_ H'].
    rewrite E in H. rewrite E' in H'. cbn [team_remaining] in H, H'.
    rewrite H, H'. f_equal. apply sum_over_perm, Hperm.
  - apply tallies_ext; [assumption..|]. intros goalie.
    pose proof (tally_fold body goalie empty_schedule) as H.
    pose proof (tally_fold body' goalie empty_schedule) as H'.
    rewrite E in H. rewrite E' in H'. cbn [goalie_schedule_stats] in H, H'.
    rewrite H, H'.
    rewrite (sum_over_perm (λ row, starts_in row goalie) _ _ Hperm).
    rewrite (sum_over_perm (λ row, wins_in row goalie) _ _ Hperm).
    rewrite (sum_over_perm (λ row, shutouts_in row goalie) _ _ Hperm).
    reflexivity.
Qed.

Lemma schedule_order_irrelevant_witness :
  load_schedule
    [schedule_header;
     game "Toronto Maple Leafs" "3" "Boston Bruins" "1" "Final" "Goalie A" "Goalie B";
     game "Boston Bruins" "" "Toronto Maple Leafs" "" "Scheduled" "" ""]
  = load_schedule
      [schedule_header;
       game "Boston Bruins" "" "Toronto Maple Leafs" "" "Scheduled" "" "";
       game "Toronto Maple Leafs" "3" "Boston Bruins" "1" "Final" "Goalie A" "Goalie B"].
Proof.
  apply schedule_order_irrelevant. apply perm_swap.
Defined.

(** ** One win per game, and the games still to play *)

Lemma total_insert (counts : gmap string Z) a n :
  total (<[a := n]> counts) = total counts - default 0 (counts !! a) + n.
Proof.
  destruct (counts !! a) as [m|] eqn:Hlook; cbn [default from_option id].
  - rewrite (total_lookup counts a m Hlook), <- insert_delete_eq.
    rewrite total_insert_fresh by apply lookup_delete_eq. lia.
  - rewrite total_insert_fresh by assumption. lia.
Qed.

Lemma total_wins_bump f n gs :
  total_wins (bump f n gs)
  = total_wins gs - wins (tally_of gs n) + wins (f (tally_of gs n)).
Proof.
  unfold total_wins.
  assert (Hmap : wins <$> bump f n gs = <[n := wins (f (tally_of gs n))]> (wins <$> gs)).
  { apply map_eq. intros m. rewrite lookup_fmap, lookup_bump.
    destruct (decide (n = m)) as [->|Hne].
    - rewrite lookup_insert_eq. reflexivity.
    - rewrite lookup_insert_ne by assumption. rewrite lookup_fmap. reflexivity. }
  rewrite Hmap, total_insert, lookup_fmap. unfold tally_of.
  destruct (gs !! n); reflexivity.
Qed.

Lemma total_wins_goalie_row vg hg v h gs :
  total_wins (goalie_row vg hg v h gs)
  = total_wins gs + (if PyStr.truthy vg && PyStr.truthy hg then 1 else 0).
Proof.
  unfold goalie_row.
  destruct (PyStr.truthy vg), (PyStr.truthy hg), (h <? v), (v =? 0), (h =? 0);
    cbn [andb]; rewrite ?total_wins_bump;
    unfold add_start, add_win, add_shutout; cbn [wins]; lia.
Qed.

Lemma total_wins_fold body : ∀ st,
  total_wins (goalie_schedule_stats (fold_left schedule_row body st))
  = total_wins (goalie_schedule_stats st)
    + count_rows (λ row, tallied_row row
                         && (PyStr.truthy (visitor_goalie_of row)
                             && PyStr.truthy (home_goalie_of row))) body.
Proof.
  induction body as [|row body IH]; intros st.
  - unfold count_rows. cbn. lia.
  - cbn [fold_left]. rewrite IH, count_rows_cons, goalie_stats_step.
    unfold tallied_row at 2.
    destruct (parsed_scores row) as [[v h]|]; cbn [andb];
      [rewrite total_wins_goalie_row|]; lia.
Qed.

(** X7: over all goalies, the wins [load_schedule] hands out are as many as
    the completed rows whose two scores parse and whose two starting
    goalies are both named: one win for each such game, none for any other
    row. *)
Theorem one_win_per_game header body :
  ∃ sd, load_schedule (header :: body) = Some sd
    ∧ total_wins (goalie_schedule_stats sd)
      = count_rows (λ row, tallied_row row
                           && (PyStr.truthy (visitor_goalie_of row)
                               && PyStr.truthy (home_goalie_of row))) body.
Proof.
  eexists. split; [reflexivity|].
  rewrite total_wins_fold. reflexivity.
Qed.

(** X8: the number of remaining games the sidebar of app.py shows,
    [sum(team_remaining.values()) // 2], is the number of rows not yet
    played with both teams recognized plus half, rounded down, of the
    number of such rows with exactly one team recognized. *)
Theorem sidebar_remaining_games header body :
  ∃ sd, load_schedule (header :: body) = Some sd
    ∧ total_remaining sd
      = count_rows (λ row, scheduled_row row && both_recognized row) body
        + count_rows (λ row, scheduled_row row && one_recognized row) body `div` 2.
Proof.
  eexists. split; [reflexivity|].
  unfold total_remaining.
  destruct (totals_fold body empty_schedule) as [_ Hr]. rewrite Hr.
  change (total (team_remaining empty_schedule)) with 0.
  rewrite Z.add_0_l, Z.add_comm, Z.mul_comm, Z.div_add by lia. lia.
Qed.

(** ** The player matcher: entries, duplicates, threshold *)

Section LookupEntries.

Variable extractOne : string -> list string -> option (string * Z).
Variable skater_stats : gmap string SkaterRecord.
Variable goalie_stats : gmap string GoalieRecord.

Local Abbreviation step := (lookup_player extractOne skater_stats goalie_stats).
Local Abbreviation build roster := (build_player_lookup extractOne roster skater_stats goalie_stats).

Lemma dom_lookup_player lookup player :
  dom (step lookup player) = {[name player]} ∪ dom lookup.
Proof.
  unfold lookup_player.
  destruct (lookup !! name player) eqn:Hp.
  - apply elem_of_dom_2 in Hp. symmetry.
    apply subseteq_union_1_L, singleton_subseteq_l, Hp.
  - destruct (String.eqb (position player) "G");
      [destruct (goalie_stats !! name player) | destruct (skater_stats !! name player)];
      apply dom_insert_L.
Qed.

Lemma dom_fold_lookup roster : ∀ lookup,
  dom (fold_left step roster lookup) = list_to_set (name <$> roster) ∪ dom lookup.
Proof.
  induction roster as [|p roster IH]; intros lookup.
  - cbn [fold_left]. change (list_to_set (name <$> [])) with (∅ : gset string).
    rewrite (left_id_L ∅ (∪)). reflexivity.
  - cbn [fold_left]. rewrite IH, dom_lookup_player, fmap_cons, list_to_set_cons.
    rewrite (comm_L (∪) {[name p]} (list_to_set (name <$> roster))).
    rewrite (assoc_L (∪)). reflexivity.
Qed.

(** A roster entry whose name has an entry already changes nothing. *)
Lemma lookup_player_seen lookup player :
  name player ∈ dom lookup → step lookup player = lookup.
Proof.
  intros [v Hv]%elem_of_dom. unfold lookup_player. rewrite Hv. reflexivity.
Qed.

(** The entry the loop writes for a name it meets for the first time. *)
Lemma lookup_player_first lookup player :
  lookup !! name player = None →
  ¬ in_own_collection skater_stats goalie_stats player →
  step lookup player !! name player
  = Some (fuzzy_match_name extractOne (name player)
            (pool_keys skater_stats goalie_stats player)).
Proof.
  intros Hfresh Hout. unfold lookup_player, in_own_collection, pool_keys in *.
  rewrite Hfresh.
  destruct (String.eqb (position player) "G").
  - destruct (goalie_stats !! name player); [destruct Hout; eauto|].
    apply lookup_insert_eq.
  - destruct (skater_stats !! name player); [destruct Hout; eauto|].
    apply lookup_insert_eq.
Qed.

End LookupEntries.

Lemma lookup_covers_roster_dom extractOne fchl_roster skater_stats goalie_stats :
  dom (build_player_lookup extractOne fchl_roster skater_stats goalie_stats)
  = list_to_set (name <$> fchl_roster).
Proof.
  unfold build_player_lookup. rewrite dom_fold_lookup, dom_empty_L.
  apply (right_id_L ∅ (∪)).
Qed.

(** X9: the lookup [build_player_lookup] returns has an entry for every
    name of the roster and for no other name. *)
Theorem lookup_covers_roster extractOne fchl_roster skater_stats goalie_stats player_name :
  is_Some (build_player_lookup extractOne fchl_roster skater_stats goalie_stats
             !! player_name)
  ↔ ∃ player, player ∈ fchl_roster ∧ name player = player_name.
Proof.
  rewrite <- elem_of_dom, lookup_covers_roster_dom, elem_of_list_to_set.
  rewrite list_elem_of_fmap. split; intros (p & H1 & H2); exists p; auto.
Qed.

(** X10: a roster entry whose name an earlier entry bears already does not
    change the lookup: the lookup of the roster with the entry is the
    lookup of the roster without it. *)
Theorem duplicate_name_ignored extractOne before player after skater_stats goalie_stats :
  name player ∈ name <$> before →
  build_player_lookup extractOne (before ++ player :: after) skater_stats goalie_stats
  = build_player_lookup extractOne (before ++ after) skater_stats goalie_stats.
Proof.
  intros Hseen. unfold build_player_lookup.
  rewrite !fold_left_app. cbn [fold_left].
  rewrite lookup_player_seen; [reflexivity|].
  rewrite dom_fold_lookup. apply elem_of_union_l, elem_of_list_to_set, Hseen.
Qed.

Lemma duplicate_name_ignored_witness :
  build_player_lookup no_fuzzy_match
    ([example_skater] ++ mkPlayer "G John Roe" "John Roe" "G" "GVR" :: [example_goalie])
    example_skater_stats example_goalie_stats
  = build_player_lookup no_fuzzy_match
      ([example_skater] ++ [example_goalie]) example_skater_stats example_goalie_stats.
Proof.
  apply (duplicate_name_ignored no_fuzzy_match [example_skater]).
  apply list_elem_of_here.
Defined.

(** X11: for the first roster entry of a name that is not a key of the
    statistics collection of its position, the lookup entry is decided by
    the similarity search over the keys of that collection: no match when
    the collection is empty or the search returns nothing, the best
    candidate when its score is at least 80, and no match when its score
    is below 80. *)
Theorem fuzzy_entry_threshold extractOne before player after skater_stats goalie_stats :
  Forall (λ q, name q ≠ name player) before →
  ¬ in_own_collection skater_stats goalie_stats player →
  build_player_lookup extractOne (before ++ player :: after) skater_stats goalie_stats
    !! name player
  = Some
      match pool_keys skater_stats goalie_stats player with
      | [] => None
      | candidates =>
          match extractOne (name player) candidates with
          | Some (best, score) => if 80 <=? score then Some best else None
          | None => None
          end
      end.
Proof.
  intros Hfirst Hout. unfold build_player_lookup.
  rewrite fold_left_app. cbn [fold_left].
  erewrite fold_lookup_keeps; [reflexivity|].
  rewrite lookup_player_first; [| | exact Hout].
  - unfold fuzzy_match_name, score_cutoff.
    destruct (pool_keys skater_stats goalie_stats player); reflexivity.
  - rewrite fold_lookup_other by assumption. apply lookup_empty.
Qed.

Lemma fuzzy_entry_threshold_witness :
  build_player_lookup (first_candidate 85)
    ([] ++ mkPlayer "F Jon Roe" "Jon Roe" "F" "BOT" :: [])
    example_skater_stats ∅ !! "Jon Roe"
  = Some (Some "John Roe")
  ∧ build_player_lookup (first_candidate 79)
      ([] ++ mkPlayer "F Jon Roe" "Jon Roe" "F" "BOT" :: [])
      example_skater_stats ∅ !! "Jon Roe"
    = Some None.
Proof.
  split.
  - refine (fuzzy_entry_threshold (first_candidate 85) []
              (mkPlayer "F Jon Roe" "Jon Roe" "F" "BOT") [] example_skater_stats ∅ _ _).
    + constructor.
    + intros [r Hr]. vm_compute in Hr. discriminate.
  - refine (fuzzy_entry_threshold (first_candidate 79) []
              (mkPlayer "F Jon Roe" "Jon Roe" "F" "BOT") [] example_skater_stats ∅ _ _).
    + constructor.
    + intros [r Hr]. vm_compute in Hr. discriminate.
Defined.

Lemma elem_of_keys {V} (d : gmap string V) key : key ∈ keys d → is_Some (d !! key).
Proof.
  unfold keys. intros ([k v] & -> & Hin)%list_elem_of_fmap.
  apply elem_of_map_to_list in Hin. eauto.
Qed.

Section NoDanglingMatch.

Variable extractOne : string -> list string -> option (string * Z).
Variable skater_stats : gmap string SkaterRecord.
Variable goalie_stats : gmap string GoalieRecord.

(** The similarity search proposes one of the candidates it is given. *)
Hypothesis extractOne_candidate :
  ∀ query candidates best score,
    extractOne query candidates = Some (best, score) → best ∈ candidates.

Lemma fuzzy_match_candidate query candidates best :
  fuzzy_match_name extractOne query candidates = Some best → best ∈ candidates.
Proof.
  unfold fuzzy_match_name. destruct candidates as [|c cs]; [discriminate|].
  destruct (extractOne query (c :: cs)) as [[m score]|] eqn:Hex; [|discriminate].
  destruct (score_cutoff <=? score); [|discriminate].
  intros [= <-]. eapply extractOne_candidate, Hex.
Qed.

Lemma lookup_player_matches lookup player :
  matches_are_keys lookup skater_stats goalie_stats →
  matches_are_keys (lookup_player extractOne skater_stats goalie_stats lookup player)
    skater_stats goalie_stats.
Proof.
  intros Hok n key. unfold lookup_player.
  destruct (lookup !! name player) eqn:Hseen; [apply Hok|].
  destruct (String.eqb (position player) "G").
  - destruct (goalie_stats !! name player) eqn:Hpool;
      (destruct (decide (name player = n)) as [<-|Hne];
       [rewrite lookup_insert_eq | rewrite lookup_insert_ne by assumption; apply Hok]).
    + intros [= <-]. right. eauto.
    + intros [= Hm]. right. eapply elem_of_keys, fuzzy_match_candidate, Hm.
  - destruct (skater_stats !! name player) eqn:Hpool;
      (destruct (decide (name player = n)) as [<-|Hne];
       [rewrite lookup_insert_eq | rewrite lookup_insert_ne by assumption; apply Hok]).
    + intros [= <-]. left. eauto.
    + intros [= Hm]. left. eapply elem_of_keys, fuzzy_match_candidate, Hm.
Qed.

Lemma fold_lookup_matches roster : ∀ lookup,
  matches_are_keys lookup skater_stats goalie_stats →
  matches_are_keys
    (fold_left (lookup_player extractOne skater_stats goalie_stats) roster lookup)
    skater_stats goalie_stats.
Proof.
  induction roster as [|p roster IH]; intros lookup Hok; [exact Hok|].
  cbn [fold_left]. apply IH, lookup_player_matches, Hok.
Qed.

End NoDanglingMatch.

(** X12: when the similarity search only ever proposes one of the
    candidates it is given, every match [build_player_lookup] records is a
    key of the skater or of the goalie statistics: the lookup holds a key
    of the statistics or [None], never another string. *)
Theorem lookup_matches_are_keys extractOne fchl_roster skater_stats goalie_stats :
  (∀ query candidates best score,
     extractOne query candidates = Some (best, score) → best ∈ candidates) →
  matches_are_keys
    (build_player_lookup extractOne fchl_roster skater_stats goalie_stats)
    skater_stats goalie_stats.
Proof.
  intros Hsearch. unfold build_player_lookup.
  apply fold_lookup_matches; [exact Hsearch|].
  intros n key Hn. rewrite lookup_empty in Hn. discriminate.
Qed.

Lemma lookup_matches_are_keys_witness :
  matches_are_keys
    (build_player_lookup (first_candidate 85)
       [mkPlayer "F Jon Roe" "Jon Roe" "F" "BOT"] example_skater_stats ∅)
    example_skater_stats ∅.
Proof.
  apply lookup_matches_are_keys.
  intros query [|c cs] best score; [discriminate|].
  intros [= <- _]. apply list_elem_of_here.
Defined.

(** X13: the shortcut of the "Add Player" button agrees with a rebuild.
    When the lookup is the one [build_player_lookup] returns for the
    roster, the added name is new to the roster and a key of the
    statistics collection of the chosen position, the lookup after
    [player_lookup[add_name] = add_name] is the lookup
    [build_player_lookup] returns for the roster with the new entry. *)
Theorem add_player_agrees_with_rebuild extractOne fchl_roster skater_stats goalie_stats
    add_name add_pos add_team :
  add_name ∉ name <$> fchl_roster →
  in_own_collection skater_stats goalie_stats
    (mkPlayer (add_pos ++ " " ++ add_name ++ " (added)") add_name add_pos add_team) →
  (add_player add_name add_pos add_team
     (fchl_roster, build_player_lookup extractOne fchl_roster skater_stats goalie_stats)).2
  = build_player_lookup extractOne
      (add_player add_name add_pos add_team
         (fchl_roster,
          build_player_lookup extractOne fchl_roster skater_stats goalie_stats)).1
      skater_stats goalie_stats.
Proof.
  intros Hnew Hin. unfold add_player. cbn [fst snd].
  unfold build_player_lookup at 2. rewrite fold_left_app. cbn [fold_left].
  fold (build_player_lookup extractOne fchl_roster skater_stats goalie_stats).
  assert (Hfresh : build_player_lookup extractOne fchl_roster skater_stats goalie_stats
                     !! add_name = None).
  { apply not_elem_of_dom. rewrite lookup_covers_roster_dom.
    rewrite elem_of_list_to_set. exact Hnew. }
  unfold lookup_player, in_own_collection in *. cbn [name position] in *.
  rewrite Hfresh.
  destruct (String.eqb add_pos "G"); destruct Hin as [r ->]; reflexivity.
Qed.

Lemma add_player_agrees_with_rebuild_witness :
  (add_player "John Roe" "F" "GVR"
     ([example_goalie],
      build_player_lookup no_fuzzy_match [example_goalie] example_skater_stats
        example_goalie_stats)).2
  = build_player_lookup no_fuzzy_match
      (add_player "John Roe" "F" "GVR"
         ([example_goalie],
          build_player_lookup no_fuzzy_match [example_goalie] example_skater_stats
            example_goalie_stats)).1
      example_skater_stats example_goalie_stats.
Proof.
  apply add_player_agrees_with_rebuild.
  - intros Hin. apply list_elem_of_singleton in Hin. discriminate Hin.
  - unfold in_own_collection. cbn [position name].
    change (String.eqb "F" "G") with false. cbv iota.
    unfold example_skater_stats. rewrite lookup_singleton_eq. eauto.
Defined.

(** ** Tokens, and the names the roster loader produces *)

Section Tokens.

Import PyStr.

Lemma token_cons c t :
  token (String c t) ↔ isspace c = false ∧ (t = "" ∨ token t).
Proof.
  unfold token. cbn [all_chars]. split.
  - intros [_ [Hc Ht]%andb_true_iff]. apply negb_true_iff in Hc.
    split; [exact Hc|]. destruct t; [left; reflexivity | right; split; [discriminate|exact Ht]].
  - intros [Hc Ht]. split; [discriminate|].
    rewrite Hc. cbn [negb andb]. destruct Ht as [->|[_ Ht]]; [reflexivity | exact Ht].
Qed.

(** The pieces [split] returns are tokens. *)
Lemma split_tokens s : Forall token (split s).
Proof.
  induction s as [|c s IH]; [constructor|].
  simpl. destruct (isspace c) eqn:Hc; [exact IH|].
  destruct (starts_token s).
  - destruct (split s) as [|t ts].
    + constructor; [|constructor]. apply token_cons. auto.
    + inversion IH as [|? ? Ht Hts]; subst. constructor; [|exact Hts].
      apply token_cons. auto.
  - constructor; [|exact IH]. apply token_cons. auto.
Qed.

(** A token followed by a space splits off as the first piece. *)
Lemma split_token_space t rest :
  token t → split (t ++ String " " rest) = t :: split rest.
Proof.
  induction t as [|c t IH]; intros Ht; [destruct Ht as [[] _]; reflexivity|].
  apply token_cons in Ht as [Hc Ht].
  simpl. rewrite Hc.
  destruct Ht as [->|Ht].
  - reflexivity.
  - assert (Hstart : starts_token (t ++ String " " rest) = true).
    { destruct t as [|c' t]; [destruct Ht as [[] _]; reflexivity|].
      apply token_cons in Ht as [Hc' _]. simpl. rewrite Hc'. reflexivity. }
    rewrite Hstart, (IH Ht). reflexivity.
Qed.

Lemma split_token t : token t → split t = [t].
Proof.
  induction t as [|c t IH]; intros Ht; [destruct Ht as [[] _]; reflexivity|].
  apply token_cons in Ht as [Hc Ht].
  simpl. rewrite Hc.
  destruct Ht as [->|Ht]; [reflexivity|].
  assert (Hstart : starts_token t = true).
  { destruct t as [|c' t]; [destruct Ht as [[] _]; reflexivity|].
    apply token_cons in Ht as [Hc' _]. simpl. rewrite Hc'. reflexivity. }
  rewrite Hstart, (IH Ht). reflexivity.
Qed.

(** Joining tokens with a space and splitting again gives the tokens
    back. *)
Lemma split_join tokens : Forall token tokens → split (join " " tokens) = tokens.
Proof.
  unfold join. induction 1 as [|t ts Ht Hts IH]; [reflexivity|].
  destruct ts as [|t' ts].
  - cbn [String.concat]. apply split_token, Ht.
  - change (String.concat " " (t :: t' :: ts))
      with (t ++ String " " (String.concat " " (t' :: ts))).
    rewrite split_token_space by exact Ht. rewrite IH. reflexivity.
Qed.

Lemma join_tokens_normalised tokens : Forall token tokens → normalised (join " " tokens).
Proof. intros Htok. unfold normalised. rewrite split_join by exact Htok. reflexivity. Qed.

Lemma join_tokens_nonempty tokens :
  Forall token tokens → tokens ≠ [] → join " " tokens ≠ "".
Proof.
  intros Htok Hne Hjoin. apply Hne.
  rewrite <- (split_join tokens Htok), Hjoin. reflexivity.
Qed.

(** A string without a token strips to nothing, a string with one token
    strips to the token. *)
Lemma rstrip_no_token s : split s = [] → rstrip s = "".
Proof.
  induction s as [|c s IH]; [reflexivity|].
  simpl split. destruct (isspace c) eqn:Hc.
  - intros Hs. rewrite rstrip_cons, (IH Hs), Hc. reflexivity.
  - destruct (starts_token s); [destruct (split s)|]; discriminate.
Qed.

Lemma lstrip_starts_token s : starts_token s = true → lstrip s = s.
Proof.
  destruct s as [|c s]; [discriminate|]. simpl.
  destruct (isspace c); [discriminate | reflexivity].
Qed.

Lemma strip_one_token s t : split s = [t] → strip s = t.
Proof.
  unfold strip. revert t. induction s as [|c s IH]; intros t; [discriminate|].
  simpl split. rewrite rstrip_cons. destruct (isspace c) eqn:Hc.
  - intros Hs. assert (Hne : nonempty (rstrip s) = true).
    { pose proof (split_rstrip s) as Hr. rewrite Hs in Hr.
      destruct (rstrip s); [discriminate | reflexivity]. }
    rewrite Hne. cbn [lstrip]. rewrite Hc. apply IH, Hs.
  - destruct (starts_token s) eqn:Hstart.
    + destruct (split s) as [|t1 ts] eqn:Hs.
      { pose proof (rstrip_no_token s Hs) as Hr.
        rewrite <- starts_token_rstrip, Hr in Hstart. discriminate. }
      intros [= <- ->].
      assert (Hr : rstrip s = t1).
      { rewrite <- (IH t1 eq_refl). symmetry. apply lstrip_starts_token.
        rewrite starts_token_rstrip. exact Hstart. }
      assert (Hne : nonempty (rstrip s) = true).
      { rewrite <- starts_token_rstrip in Hstart.
        destruct (rstrip s); [discriminate | reflexivity]. }
      rewrite Hne, Hr. cbn [lstrip]. rewrite Hc. reflexivity.
    + intros [= <- Hs]. rewrite (rstrip_no_token s Hs). cbn [nonempty lstrip].
      rewrite Hc. reflexivity.
Qed.

Lemma strip_no_token s : split s = [] → strip s = "".
Proof. intros Hs. unfold strip. rewrite (rstrip_no_token s Hs). reflexivity. Qed.

End Tokens.

(** [parse_player_name] on a string with at least two tokens. *)
Lemma parse_player_name_tokens raw pos tok toks :
  PyStr.split raw = pos :: tok :: toks →
  ∃ name_parts,
    parse_player_name raw = (pos, PyStr.join " " name_parts)
    ∧ name_parts ≠ [] ∧ Forall token name_parts.
Proof.
  intros Hsplit.
  pose proof (split_tokens raw) as Htok. rewrite Hsplit in Htok.
  inversion Htok as [|? ? _ Hrest]; subst.
  unfold parse_player_name. rewrite split_strip, Hsplit.
  replace (length (pos :: tok :: toks) <? 2)%nat with false
    by (symmetry; apply Nat.ltb_ge; simpl; lia).
  cbn [hd].
  match goal with
  | |- context [if ?b then py_slice 1 (-1) ?l else drop 1 ?l] => destruct b eqn:Hb
  end.
  - exists (removelast (tok :: toks)).
    rewrite py_slice_inner by discriminate.
    apply andb_true_iff in Hb as [_ Hlen]. apply Nat.ltb_lt in Hlen.
    split; [reflexivity|]. split.
    + destruct toks; [simpl in Hlen; lia | discriminate].
    + rewrite removelast_firstn_len. apply Forall_take, Hrest.
  - exists (tok :: toks). split; [reflexivity|]. split; [discriminate | exact Hrest].
Qed.

Lemma parse_player_name_few raw :
  (length (PyStr.split raw) < 2)%nat → parse_player_name raw = ("", raw).
Proof.
  intros Hlen. unfold parse_player_name. rewrite split_strip.
  replace (length (PyStr.split raw) <? 2)%nat with true
    by (symmetry; apply Nat.ltb_lt; exact Hlen).
  reflexivity.
Qed.

Lemma parsed_name_parts raw :
  (2 <= length (PyStr.split raw))%nat →
  token (parse_player_name raw).1
  ∧ (parse_player_name raw).2 ≠ ""
  ∧ normalised (parse_player_name raw).2.
Proof.
  intros Hlen.
  destruct (PyStr.split raw) as [|pos [|tok toks]] eqn:Hsplit;
    [simpl in Hlen; lia | simpl in Hlen; lia |].
  destruct (parse_player_name_tokens raw pos tok toks Hsplit)
    as (parts & -> & Hne & Htok).
  pose proof (split_tokens raw) as Hall. rewrite Hsplit in Hall.
  inversion Hall as [|? ? Hpos _]; subst. cbn [fst snd].
  split; [exact Hpos|]. split.
  - apply join_tokens_nonempty; assumption.
  - apply join_tokens_normalised, Htok.
Qed.

(** X14: on a string with at least two tokens [parse_player_name] returns
    the first token as position and a name that is not empty, has nothing
    but single spaces between its tokens and no whitespace around them:
    the guard on the suffix never leaves an empty name. *)
Theorem parsed_name_well_formed raw :
  (2 <= length (PyStr.split raw))%nat →
  head (PyStr.split raw) = Some (parse_player_name raw).1
  ∧ token (parse_player_name raw).1
  ∧ (parse_player_name raw).2 ≠ ""
  ∧ normalised (parse_player_name raw).2.
Proof.
  intros Hlen.
  destruct (PyStr.split raw) as [|pos [|tok toks]] eqn:Hsplit;
    [simpl in Hlen; lia | simpl in Hlen; lia |].
  destruct (parse_player_name_tokens raw pos tok toks Hsplit)
    as (parts & -> & Hne & Htok).
  pose proof (split_tokens raw) as Hall. rewrite Hsplit in Hall.
  inversion Hall as [|? ? Hpos _]; subst. cbn [fst snd head].
  split; [reflexivity|]. split; [exact Hpos|]. split.
  - apply join_tokens_nonempty; assumption.
  - apply join_tokens_normalised, Htok.
Qed.

Lemma parsed_name_well_formed_witness :
  (parse_player_name "  D   Sebastian  Aho B ").2 ≠ "".
Proof.
  refine (proj1 (proj2 (proj2 (parsed_name_well_formed "  D   Sebastian  Aho B " _)))).
  vm_compute. lia.
Defined.

(** X15: [parse_player_name] reads nothing but the tokens of a string with
    at least two tokens: two such strings that differ only in their
    whitespace parse to the same position and name. *)
Theorem parse_ignores_whitespace raw raw' :
  PyStr.split raw = PyStr.split raw' →
  (2 <= length (PyStr.split raw))%nat →
  parse_player_name raw = parse_player_name raw'.
Proof.
  intros Hsame Hlen. unfold parse_player_name.
  rewrite !split_strip, <- Hsame.
  replace (length (PyStr.split raw) <? 2)%nat with false
    by (symmetry; apply Nat.ltb_ge; exact Hlen).
  reflexivity.
Qed.

Lemma parse_ignores_whitespace_witness :
  parse_player_name "  F   Connor McDavid   97 " = parse_player_name "F Connor McDavid 97".
Proof.
  apply parse_ignores_whitespace.
  - vm_compute. reflexivity.
  - vm_compute. lia.
Defined.

Lemma roster_entry_fields row :
  raw (roster_entry row) = PyStr.strip row.1
  ∧ fchl_team (roster_entry row) = PyStr.strip row.2
  ∧ (position (roster_entry row), name (roster_entry row))
    = parse_player_name (PyStr.strip row.1).
Proof.
  unfold roster_entry. destruct (parse_player_name (PyStr.strip row.1)); auto.
Qed.

(** X16: every entry [load_fchl_roster] returns has a name with nothing but
    single spaces between its tokens and no whitespace around them, a
    position that is empty or a single token, and an empty name only when
    the PLAYER cell holds nothing but whitespace. *)
Theorem roster_names_normalised rows player :
  player ∈ load_fchl_roster rows →
  normalised (name player)
  ∧ (position player = "" ∨ token (position player))
  ∧ (name player = "" → raw player = "").
Proof.
  unfold load_fchl_roster. intros (row & -> & _)%list_elem_of_fmap.
  destruct (roster_entry_fields row) as (Hraw & _ & Hparse).
  rewrite Hraw. set (cell := PyStr.strip row.1) in *.
  assert (Hcell : PyStr.split cell = PyStr.split row.1) by apply split_strip.
  destruct (PyStr.split cell) as [|t [|tok toks]] eqn:Hsplit.
  - rewrite parse_player_name_few in Hparse by (rewrite Hsplit; simpl; lia).
    injection Hparse as -> ->.
    assert (cell = "") as -> by (apply strip_no_token; congruence).
    repeat split; auto.
  - rewrite parse_player_name_few in Hparse by (rewrite Hsplit; simpl; lia).
    injection Hparse as -> ->.
    assert (Hone : cell = t) by (apply strip_one_token; congruence).
    split; [|split; [left; reflexivity | auto]].
    unfold normalised. rewrite Hsplit. symmetry. exact Hone.
  - destruct (parsed_name_parts cell) as (Hpos & Hname & Hnorm);
      [rewrite Hsplit; simpl; lia|].
    rewrite <- Hparse in *. cbn [fst snd] in *.
    split; [exact Hnorm|]. split; [right; exact Hpos|].
    intros Hempty. contradiction.
Qed.

Lemma roster_names_normalised_witness :
  normalised "Connor McDavid".
Proof.
  refine (proj1 (roster_names_normalised [("  F Connor  McDavid 97 ", " BOT ")]
                   (mkPlayer "F Connor  McDavid 97" "Connor McDavid" "F" "BOT") _)).
  assert (Hload : load_fchl_roster [("  F Connor  McDavid 97 ", " BOT ")]
                  = [mkPlayer "F Connor  McDavid 97" "Connor McDavid" "F" "BOT"])
    by (vm_compute; reflexivity).
  rewrite Hload. apply list_elem_of_here.
Defined.

(** ** More on the projections *)

(** The fields a projection copies from the roster entry. *)
Lemma project_player_identity player_lookup skater_stats goalie_stats schedule_data
    player proj :
  project_player player_lookup skater_stats goalie_stats schedule_data player = Ok proj →
  p_name proj = name player ∧ p_position proj = position player
  ∧ p_fchl_team proj = fchl_team player
  ∧ (found_in_stats proj = false → p_nhl_team proj = "").
Proof.
  unfold project_player.
  destruct (mjoin (player_lookup !! name player)) as [key|];
    destruct (String.eqb (position player) "G").
  - destruct (goalie_stats !! key) as [g|] eqn:Hg.
    + destruct (Z.eq_dec (starts (schedule_tally (goalie_schedule_stats schedule_data)
                                    key (name player))) 0) as [Hs|Hs];
        [|destruct (Z.eq_dec (default 0 (team_completed schedule_data !! g_nhl_team g)) 0)
            as [Hc|Hc]].
      * rewrite (project_goalie_idle _ _ _ _ _ _ _ Hg (or_introl Hs)).
        intros [= <-]. repeat split. discriminate.
      * rewrite (project_goalie_idle _ _ _ _ _ _ _ Hg (or_intror Hc)).
        intros [= <-]. repeat split. discriminate.
      * rewrite (project_goalie_active _ _ _ _ _ _ _ Hg Hs Hc).
        intros [= <-]. repeat split. discriminate.
    + rewrite project_goalie_unmatched by (simpl; exact Hg).
      intros [= <-]. repeat split.
  - destruct (skater_stats !! key) as [s|] eqn:Hs.
    + destruct (PrimFloat.leb (sk_games_played s) 0%float) eqn:Hgp.
      * rewrite (project_skater_idle _ _ _ _ _ Hs Hgp).
        intros [= <-]. repeat split. discriminate.
      * rewrite (project_skater_active _ _ _ _ _ Hs Hgp).
        intros [= <-]. repeat split. discriminate.
    + rewrite project_skater_unmatched by (simpl; exact Hs).
      intros [= <-]. repeat split.
  - intros [= <-]. repeat split.
  - intros [= <-]. repeat split.
Qed.

(** X17: the list [project_all_players] returns lines up with the roster:
    the i-th projection carries the name, the position and the fantasy team
    of the i-th roster entry, and an NHL team only when the player was
    found in the statistics. *)
Theorem projections_line_up fchl_roster player_lookup skater_stats goalie_stats
    schedule_data :
  ∃ projections,
    project_all_players fchl_roster player_lookup skater_stats goalie_stats schedule_data
    = Ok projections
    ∧ p_name <$> projections = name <$> fchl_roster
    ∧ p_position <$> projections = position <$> fchl_roster
    ∧ p_fchl_team <$> projections = fchl_team <$> fchl_roster
    ∧ Forall (λ proj, found_in_stats proj = false → p_nhl_team proj = "") projections.
Proof.
  destruct (project_all_players_each fchl_roster player_lookup skater_stats goalie_stats
              schedule_data) as (ps & Hps & Hall).
  exists ps. split; [exact Hps|]. clear Hps.
  induction Hall as [|player proj roster ps Hproj _ (IHn & IHp & IHt & IHf)].
  - repeat split; constructor.
  - apply project_player_identity in Hproj as (Hn & Hp & Ht & Hf).
    rewrite !fmap_cons, Hn, Hp, Ht, IHn, IHp, IHt.
    repeat split. constructor; assumption.
Qed.

(** X18: a goalie who is a key of the goalie statistics but has no tally in
    the schedule, neither under the matched key nor under the roster name,
    is projected as found, on the team of the record, with all five
    numbers zero. *)
Theorem goalie_without_tally player key g goalie_stats gss completed remaining :
  goalie_stats !! key = Some g →
  gss !! key = None → gss !! name player = None →
  project_goalie player (Some key) goalie_stats gss completed remaining
  = Ok (mkProjection (name player) (position player) (fchl_team player) (g_nhl_team g)
          0 0 0 0 0 true).
Proof.
  intros Hg Hkey Hname.
  apply (project_goalie_idle _ _ _ _ _ _ _ Hg). left.
  unfold schedule_tally. rewrite Hkey, Hname. reflexivity.
Qed.

Lemma goalie_without_tally_witness :
  project_goalie example_goalie (Some "Jane Doe") example_goalie_stats
    {[ "J. Doe" := mkTally 20 12 2 ]} example_completed example_remaining
  = Ok (mkProjection "Jane Doe" "G" "BOT" "TOR" 0 0 0 0 0 true).
Proof.
  apply (goalie_without_tally example_goalie "Jane Doe" (mkGoalie "Jane Doe" "TOR" 20)).
  - reflexivity.
  - reflexivity.
  - reflexivity.
Defined.

(** *** Games played that are not a number, and teams without games left *)

Lemma SFcompare_refl s : s ≠ S754_nan → SFcompare s s = Some Eq.
Proof.
  destruct s as [[]|[]| |[] m e]; intros Hs; try reflexivity; try congruence;
    cbn [SFcompare]; rewrite Z.compare_refl, Pos.compare_cont_refl; reflexivity.
Qed.

Lemma float_is_nan_true x : PrimFloat.is_nan x = true ↔ Prim2SF x = S754_nan.
Proof.
  unfold PrimFloat.is_nan. rewrite FloatAxioms.eqb_spec. unfold SFeqb. split.
  - intros H. destruct (Prim2SF x) as [s|s| |s m e] eqn:Hx; [| |reflexivity|];
      rewrite SFcompare_refl in H by discriminate; discriminate.
  - intros ->. reflexivity.
Qed.

Lemma float_div_nan a b : PrimFloat.is_nan b = true → PrimFloat.is_nan (a / b) = true.
Proof.
  rewrite !float_is_nan_true, FloatAxioms.div_spec. intros ->.
  destruct (Prim2SF a); reflexivity.
Qed.

Lemma float_mul_nan a b : PrimFloat.is_nan a = true → PrimFloat.is_nan (a * b) = true.
Proof.
  rewrite !float_is_nan_true, FloatAxioms.mul_spec. intros ->. reflexivity.
Qed.

Lemma float_add_nan a b : PrimFloat.is_nan a = true → PrimFloat.is_nan (a + b) = true.
Proof.
  rewrite !float_is_nan_true, FloatAxioms.add_spec. intros ->. reflexivity.
Qed.

Lemma float_nan_not_leb x y : PrimFloat.is_nan x = true → PrimFloat.leb x y = false.
Proof.
  rewrite float_is_nan_true, FloatAxioms.leb_spec. intros ->. reflexivity.
Qed.

(** X19: the guard [gp <= 0] of [project_skater] lets a games-played value
    that is not a number through: the player is projected as found, and
    the projected goals, assists and points are all NaN, whatever the
    other statistics and the remaining games are. *)
Theorem nan_games_played_projects_nan player key s skater_stats team_remaining :
  skater_stats !! key = Some s →
  PrimFloat.is_nan (sk_games_played s) = true →
  ∃ p, project_skater player (Some key) skater_stats team_remaining = Ok p
    ∧ found_in_stats p = true
    ∧ PrimFloat.is_nan (proj_goals p) = true
    ∧ PrimFloat.is_nan (proj_assists p) = true
    ∧ PrimFloat.is_nan (proj_pts p) = true.
Proof.
  intros Hs Hnan.
  pose proof (float_nan_not_leb _ 0%float Hnan) as Hgp.
  eexists. split; [apply (project_skater_active _ _ _ _ _ Hs Hgp)|].
  cbn [found_in_stats proj_goals proj_assists proj_pts].
  split; [reflexivity|].
  split; [apply float_mul_nan, float_div_nan, Hnan|].
  split; [apply float_mul_nan, float_div_nan, Hnan|].
  apply float_add_nan, float_mul_nan, float_mul_nan, float_div_nan, Hnan.
Qed.

Lemma nan_games_played_projects_nan_witness :
  ∃ p, project_skater example_skater (Some "John Roe")
         {[ "John Roe" := mkSkater "John Roe" "EDM" nan 10 5 3 ]}
         example_skater_remaining = Ok p
    ∧ PrimFloat.is_nan (proj_pts p) = true.
Proof.
  destruct (nan_games_played_projects_nan example_skater "John Roe"
              (mkSkater "John Roe" "EDM" nan 10 5 3)
              {[ "John Roe" := mkSkater "John Roe" "EDM" nan 10 5 3 ]}
              example_skater_remaining) as (p & Hp & _ & _ & _ & Hpts).
  - reflexivity.
  - reflexivity.
  - exists p. split; assumption.
Defined.

Lemma float_finite_spec x :
  PrimFloat.is_finite x = true →
  ∃ sg, Prim2SF x = S754_zero sg ∨ ∃ m e, Prim2SF x = S754_finite sg m e.
Proof.
  unfold PrimFloat.is_finite, PrimFloat.is_infinity.
  intros [Hnan Hinf]%negb_true_iff%orb_false_iff.
  rewrite FloatAxioms.eqb_spec, FloatAxioms.abs_spec in Hinf.
  destruct (Prim2SF x) as [sg|sg| |sg m e] eqn:Hx.
  - exists sg. auto.
  - destruct sg; discriminate Hinf.
  - apply float_is_nan_true in Hx. congruence.
  - exists sg. eauto.
Qed.

(** A finite float times 0.0 is a zero. *)
Lemma float_mul_zero x :
  PrimFloat.is_finite x = true → (x * 0)%float = 0%float ∨ (x * 0)%float = (-0)%float.
Proof.
  intros (sg & Hx)%float_finite_spec.
  rewrite <- (FloatAxioms.SF2Prim_Prim2SF (x * 0)%float).
  rewrite FloatAxioms.mul_spec, Prim2SF_zero. unfold SF64mul.
  destruct Hx as [->|(m & e & ->)]; destruct sg; cbn [SFmul xorb]; auto.
Qed.

(** X20: a skater with games played above zero whose NHL team is not in
    the remaining-games dictionary, or is in it with 0, is projected as
    found with goals, assists and points that compare equal to zero,
    provided the two per-game rates are finite. *)
Theorem skater_without_games_left player key s skater_stats team_remaining :
  skater_stats !! key = Some s →
  PrimFloat.ltb 0%float (sk_games_played s) = true →
  default 0 (team_remaining !! sk_nhl_team s) = 0 →
  PrimFloat.is_finite (goals s / sk_games_played s) = true →
  PrimFloat.is_finite ((primary_assists s + secondary_assists s) / sk_games_played s)
  = true →
  ∃ p, project_skater player (Some key) skater_stats team_remaining = Ok p
    ∧ found_in_stats p = true
    ∧ PrimFloat.eqb (proj_goals p) 0%float = true
    ∧ PrimFloat.eqb (proj_assists p) 0%float = true
    ∧ PrimFloat.eqb (proj_pts p) 0%float = true.
Proof.
  intros Hs Hgp Hrem Hg Ha.
  apply float_pos_not_leb in Hgp.
  eexists. split; [apply (project_skater_active _ _ _ _ _ Hs Hgp)|].
  cbn [found_in_stats proj_goals proj_assists proj_pts].
  rewrite Hrem, !float_mul_one.
  change (float_of_int 0) with 0%float.
  split; [reflexivity|].
  destruct (float_mul_zero _ Hg) as [-> | ->], (float_mul_zero _ Ha) as [-> | ->];
    repeat split; reflexivity.
Qed.

Lemma skater_without_games_left_witness :
  ∃ p, project_skater example_skater (Some "John Roe") example_skater_stats ∅ = Ok p
    ∧ PrimFloat.eqb (proj_pts p) 0%float = true.
Proof.
  destruct (skater_without_games_left example_skater "John Roe"
              (mkSkater "John Roe" "EDM" 20 10 5 3) example_skater_stats ∅)
    as (p & Hp & _ & _ & _ & Hpts).
  - reflexivity.
  - reflexivity.
  - reflexivity.
  - reflexivity.
  - reflexivity.
  - exists p. split; assumption.
Defined.

(** ** The order of the standings *)

Lemma SFleb_rank x y :
  x ≠ S754_nan → y ≠ S754_nan →
  (SFleb x y = true ↔ lex_le (SF_rank x) (SF_rank y)).
Proof.
  intros Hx Hy. unfold SFleb, lex_le.
  destruct x as [sx|sx| |sx mx ex], y as [sy|sy| |sy my ey]; try congruence;
    try (destruct sx); try (destruct sy); cbn [SFcompare SF_rank];
    try (split; [intros _; lia | reflexivity]);
    try (split; [discriminate | lia]).
  - rewrite Pos.compare_cont_spec. cbn [Pos.switch_Eq].
    destruct (Z.compare_spec ex ey), (Pos.compare_spec mx my); cbn [CompOpp];
      split; try discriminate; try lia; reflexivity.
  - rewrite Pos.compare_cont_spec. cbn [Pos.switch_Eq].
    destruct (Z.compare_spec ex ey), (Pos.compare_spec mx my);
      split; try discriminate; try lia; reflexivity.
Qed.

Lemma SFleb_not_nan x y : SFleb x y = true → x ≠ S754_nan ∧ y ≠ S754_nan.
Proof.
  unfold SFleb. destruct x, y; cbn [SFcompare]; try discriminate;
    intros _; split; discriminate.
Qed.

(** [<=] on doubles is transitive. *)
Lemma float_leb_trans x y z :
  PrimFloat.leb x y = true → PrimFloat.leb y z = true → PrimFloat.leb x z = true.
Proof.
  rewrite !FloatAxioms.leb_spec. intros Hxy Hyz.
  destruct (SFleb_not_nan _ _ Hxy) as [Hx Hy].
  destruct (SFleb_not_nan _ _ Hyz) as [_ Hz].
  apply SFleb_rank in Hxy; [|assumption..].
  apply SFleb_rank in Hyz; [|assumption..].
  apply SFleb_rank; [assumption..|].
  unfold lex_le in *.
  destruct (SF_rank (Prim2SF x)) as [[a1 b1] c1],
           (SF_rank (Prim2SF y)) as [[a2 b2] c2],
           (SF_rank (Prim2SF z)) as [[a3 b3] c3]. lia.
Qed.

(** Two doubles that are [<=] each other compare equal. *)
Lemma float_leb_antisym x y :
  PrimFloat.leb x y = true → PrimFloat.leb y x = true → PrimFloat.eqb x y = true.
Proof.
  rewrite !FloatAxioms.leb_spec, FloatAxioms.eqb_spec. unfold SFleb, SFeqb.
  rewrite (SFcompare_antisym (Prim2SF x) (Prim2SF y)).
  destruct (SFcompare (Prim2SF x) (Prim2SF y)) as [[]|]; cbn; congruence.
Qed.

Lemma descending_strongly standings :
  descending standings →
  StronglySorted (λ a b, PrimFloat.leb (proj_total b) (proj_total a) = true) standings.
Proof.
  apply Sorted_StronglySorted. intros a b c Hab Hbc.
  exact (float_leb_trans _ _ _ Hbc Hab).
Qed.

Lemma strongly_sorted_pairs {A} (R : A → A → Prop) l :
  StronglySorted R l →
  ∀ i j a b, (i < j)%nat → l !! i = Some a → l !! j = Some b → R a b.
Proof.
  induction 1 as [|x l Hl IH Hx]; intros i j a b Hij Hi Hj; [discriminate|].
  destruct j as [|j]; [lia|]. cbn in Hj.
  destruct i as [|i].
  - injection Hi as <-. rewrite Forall_forall in Hx.
    apply Hx, list_elem_of_lookup. eauto.
  - cbn in Hi. apply (IH i j); [lia | assumption..].
Qed.

(** X21: when no projected total is a NaN, every team of the standings has
    a total [>=] that of every team ranked below it, not only of the next
    one; in particular no team has a higher total than the first. *)
Theorem standings_all_pairs set_iter projections current i j higher lower :
  Forall (λ s, PrimFloat.is_nan (proj_total s) = false)
         (compute_standings set_iter projections current) →
  (i < j)%nat →
  compute_standings set_iter projections current !! i = Some higher →
  compute_standings set_iter projections current !! j = Some lower →
  PrimFloat.leb (proj_total lower) (proj_total higher) = true.
Proof.
  intros Hnan Hij Hi Hj.
  assert (Hsorted : descending (compute_standings set_iter projections current)).
  { unfold compute_standings in *. apply sort_desc_sorted.
    rewrite sort_desc_perm in Hnan. exact Hnan. }
  apply descending_strongly in Hsorted.
  exact (strongly_sorted_pairs _ _ Hsorted i j higher lower Hij Hi Hj).
Qed.

Lemma standings_all_pairs_witness :
  PrimFloat.leb 850 910 = true.
Proof.
  refine (standings_all_pairs elements example_projections example_baseline 0 1
            (mkStanding "B" 900 10 910) (mkStanding "A" 800 50 850) _ _ _ _).
  - assert (Hres : compute_standings elements example_projections example_baseline
                   = [mkStanding "B" 900 10 910; mkStanding "A" 800 50 850])
      by (vm_compute; reflexivity).
    rewrite Hres. repeat constructor.
  - lia.
  - vm_compute. reflexivity.
  - vm_compute. reflexivity.
Defined.

(** Two sorted lists with the same elements are one list, when no two
    different elements are related both ways. *)
Lemma sorted_perm_unique {A} (R : A → A → Prop) (l1 : list A) : ∀ l2,
  StronglySorted R l1 → StronglySorted R l2 → l1 ≡ₚ l2 →
  (∀ a b, a ∈ l1 → b ∈ l1 → R a b → R b a → a = b) →
  l1 = l2.
Proof.
  induction l1 as [|a l1 IH]; intros l2 Hs1 Hs2 Hperm Hanti.
  - apply Permutation_nil in Hperm. congruence.
  - destruct l2 as [|b l2];
      [apply Permutation_sym, Permutation_nil in Hperm; discriminate|].
    apply StronglySorted_inv in Hs1 as [Hs1 Ha].
    apply StronglySorted_inv in Hs2 as [Hs2 Hb].
    rewrite Forall_forall in Ha, Hb.
    assert (Hab : a = b).
    { assert (Hin : a ∈ b :: l2) by (rewrite <- Hperm; apply list_elem_of_here).
      apply elem_of_cons in Hin as [Heq|Hin]; [exact Heq|].
      assert (Hin' : b ∈ a :: l1) by (rewrite Hperm; apply list_elem_of_here).
      pose proof Hin' as Hb_in.
      apply elem_of_cons in Hin' as [Heq|Hin']; [congruence|].
      apply Hanti; [apply list_elem_of_here | exact Hb_in | |].
      - apply Ha, Hin'.
      - apply Hb, Hin. }
    subst b. f_equal. apply IH; [assumption..| |].
    + eapply Permutation_cons_inv, Hperm.
    + intros x y Hx Hy. apply Hanti; apply list_elem_of_further; assumption.
Qed.

(** X22: when no projected total is a NaN and no two teams have totals
    that compare equal, [compute_standings] returns the same list in
    whatever order the set of teams is iterated. *)
Theorem standings_independent_of_iteration set_iter set_iter' projections current :
  (∀ X, set_iter X ≡ₚ elements X) →
  (∀ X, set_iter' X ≡ₚ elements X) →
  Forall (λ s, PrimFloat.is_nan (proj_total s) = false)
         (compute_standings set_iter projections current) →
  no_ties (compute_standings set_iter projections current) →
  compute_standings set_iter' projections current
  = compute_standings set_iter projections current.
Proof.
  intros Hiter Hiter' Hnan Hties. symmetry.
  assert (Hperm : compute_standings set_iter projections current
                  ≡ₚ compute_standings set_iter' projections current).
  { unfold compute_standings. rewrite !sort_desc_perm, Hiter, Hiter'. reflexivity. }
  assert (Hnan' : Forall (λ s, PrimFloat.is_nan (proj_total s) = false)
                    (compute_standings set_iter' projections current))
    by (rewrite <- Hperm; exact Hnan).
  apply (sorted_perm_unique
           (λ a b, PrimFloat.leb (proj_total b) (proj_total a) = true)).
  - apply descending_strongly. unfold compute_standings in *.
    apply sort_desc_sorted. rewrite sort_desc_perm in Hnan. exact Hnan.
  - apply descending_strongly. unfold compute_standings in *.
    apply sort_desc_sorted. rewrite sort_desc_perm in Hnan'. exact Hnan'.
  - exact Hperm.
  - intros a b Ha Hb Hab Hba. apply Hties; [assumption..|].
    apply float_leb_antisym; assumption.
Qed.

Lemma standings_independent_of_iteration_witness :
  compute_standings (λ X, reverse (elements X)) example_projections example_baseline
  = compute_standings elements example_projections example_baseline.
Proof.
  apply standings_independent_of_iteration.
  - intros X. reflexivity.
  - intros X. apply reverse_Permutation.
  - assert (Hres : compute_standings elements example_projections example_baseline
                   = [mkStanding "B" 900 10 910; mkStanding "A" 800 50 850])
      by (vm_compute; reflexivity).
    rewrite Hres. repeat constructor.
  - assert (Hres : compute_standings elements example_projections example_baseline
                   = [mkStanding "B" 900 10 910; mkStanding "A" 800 50 850])
      by (vm_compute; reflexivity).
    rewrite Hres. intros s s' Hs Hs' Heq.
    apply list_elem_of_In in Hs. apply list_elem_of_In in Hs'.
    destruct Hs as [<-|[<-|[]]], Hs' as [<-|[<-|[]]];
      try reflexivity; vm_compute in Heq; discriminate Heq.
Defined.

(** ** The roster builder and the projections *)

Lemma project_player_set_team player_lookup skater_stats goalie_stats schedule_data
    new_team player proj :
  project_player player_lookup skater_stats goalie_stats schedule_data player = Ok proj →
  project_player player_lookup skater_stats goalie_stats schedule_data
    (set_team new_team player)
  = Ok (set_projection_team new_team proj).
Proof.
  set (moved := set_team new_team player).
  assert (Hname : name moved = name player) by reflexivity.
  assert (Hpos : position moved = position player) by reflexivity.
  unfold project_player. rewrite Hname, Hpos.
  destruct (mjoin (player_lookup !! name player)) as [key|];
    destruct (String.eqb (position player) "G").
  - destruct (goalie_stats !! key) as [g|] eqn:Hg.
    + destruct (Z.eq_dec (starts (schedule_tally (goalie_schedule_stats schedule_data)
                                    key (name player))) 0) as [Hs|Hs];
        [|destruct (Z.eq_dec (default 0 (team_completed schedule_data !! g_nhl_team g)) 0)
            as [Hc|Hc]].
      * rewrite (project_goalie_idle player _ _ _ _ _ _ Hg (or_introl Hs)).
        rewrite (project_goalie_idle moved _ _ _ _ _ _ Hg (or_introl Hs)).
        intros [= <-]. reflexivity.
      * rewrite (project_goalie_idle player _ _ _ _ _ _ Hg (or_intror Hc)).
        rewrite (project_goalie_idle moved _ _ _ _ _ _ Hg (or_intror Hc)).
        intros [= <-]. reflexivity.
      * rewrite (project_goalie_active player _ _ _ _ _ _ Hg Hs Hc).
        rewrite (project_goalie_active moved _ _ _ _ _ _ Hg Hs Hc).
        intros [= <-]. reflexivity.
    + rewrite (project_goalie_unmatched player) by (simpl; exact Hg).
      rewrite (project_goalie_unmatched moved) by (simpl; exact Hg).
      intros [= <-]. reflexivity.
  - destruct (skater_stats !! key) as [s|] eqn:Hs.
    + destruct (PrimFloat.leb (sk_games_played s) 0%float) eqn:Hgp.
      * rewrite (project_skater_idle player _ _ _ _ Hs Hgp).
        rewrite (project_skater_idle moved _ _ _ _ Hs Hgp).
        intros [= <-]. reflexivity.
      * rewrite (project_skater_active player _ _ _ _ Hs Hgp).
        rewrite (project_skater_active moved _ _ _ _ Hs Hgp).
        intros [= <-]. reflexivity.
    + rewrite (project_skater_unmatched player) by (simpl; exact Hs).
      rewrite (project_skater_unmatched moved) by (simpl; exact Hs).
      intros [= <-]. reflexivity.
  - intros [= <-]. reflexivity.
  - intros [= <-]. reflexivity.
Qed.

Lemma same_projection_entry player_lookup skater_stats goalie_stats schedule_data
    player proj n t :
  project_player player_lookup skater_stats goalie_stats schedule_data player = Ok proj →
  same_projection n t proj = same_entry n t player.
Proof.
  intros (Hn & _ & Ht & _)%project_player_identity.
  unfold same_projection, same_entry. rewrite Hn, Ht. reflexivity.
Qed.

(** X23: the "Remove" button takes out of the projections exactly the
    projections of the removed entries: the projections of the roster
    after the removal are those of the roster before it without the ones
    that bear the name and the fantasy team of the removed player, in the
    same order. *)
Theorem remove_player_projections player_name team fchl_roster player_lookup
    skater_stats goalie_stats schedule_data :
  ∃ projections,
    project_all_players fchl_roster player_lookup skater_stats goalie_stats schedule_data
    = Ok projections
    ∧ project_all_players (remove_player player_name team fchl_roster) player_lookup
        skater_stats goalie_stats schedule_data
      = Ok (filter (λ proj, same_projection player_name team proj = false) projections).
Proof.
  destruct (project_all_players_each fchl_roster player_lookup skater_stats goalie_stats
              schedule_data) as (ps & Hps & Hall).
  exists ps. split; [exact Hps|]. clear Hps. unfold remove_player.
  induction Hall as [|player proj roster ps Hproj _ IH]; [reflexivity|].
  rewrite !filter_cons.
  rewrite (same_projection_entry _ _ _ _ _ _ player_name team Hproj).
  destruct (same_entry player_name team player).
  - rewrite !decide_False by discriminate. exact IH.
  - rewrite !decide_True by reflexivity.
    cbn [project_all_players]. rewrite Hproj, IH. reflexivity.
Qed.

(** X24: the "Move to" box changes no projected number: the projections of
    the roster after the move are those of the roster before it, with the
    fantasy team of the first projection that bears the name and the old
    fantasy team replaced by the new one. *)
Theorem move_player_projections player_name team new_team fchl_roster player_lookup
    skater_stats goalie_stats schedule_data :
  ∃ projections,
    project_all_players fchl_roster player_lookup skater_stats goalie_stats schedule_data
    = Ok projections
    ∧ project_all_players (move_player player_name team new_team fchl_roster)
        player_lookup skater_stats goalie_stats schedule_data
      = Ok (move_projection player_name team new_team projections).
Proof.
  destruct (project_all_players_each fchl_roster player_lookup skater_stats goalie_stats
              schedule_data) as (ps & Hps & Hall).
  exists ps. split; [exact Hps|].
  revert Hps. induction Hall as [|player proj roster ps Hproj Hall IH]; intros Hps;
    [reflexivity|].
  assert (Hrest : project_all_players roster player_lookup skater_stats goalie_stats
                    schedule_data = Ok ps).
  { cbn [project_all_players] in Hps. rewrite Hproj in Hps.
    destruct (project_all_players roster player_lookup skater_stats goalie_stats
                schedule_data); [|discriminate].
    injection Hps as ->. reflexivity. }
  cbn [move_player move_projection].
  rewrite (same_projection_entry _ _ _ _ _ _ player_name team Hproj).
  destruct (same_entry player_name team player).
  - cbn [project_all_players].
    rewrite (project_player_set_team _ _ _ _ new_team _ _ Hproj), Hrest. reflexivity.
  - cbn [project_all_players]. rewrite Hproj, (IH Hrest). reflexivity.
Qed.

(** ** The statistics loaders *)

Section LastRowWins.
Context {R : Type} (record_of : StatsRow → R).

Lemma fold_stats_last (rows : list StatsRow) (stats : gmap string R) key :
  fold_left (λ stats row, <[PyStr.strip (row_name row) := record_of row]> stats) rows stats
    !! key
  = match last (filter (λ row, PyStr.strip (row_name row) = key) rows) with
    | Some row => Some (record_of row)
    | None => stats !! key
    end.
Proof.
  revert stats. induction rows as [|row rows IH]; intros stats; [reflexivity|].
  cbn [fold_left]. rewrite IH, filter_cons. case_decide as Hkey.
  - rewrite last_cons.
    destruct (last (filter (λ row, PyStr.strip (row_name row) = key) rows));
      [reflexivity|].
    rewrite Hkey. apply lookup_insert_eq.
  - destruct (last (filter (λ row, PyStr.strip (row_name row) = key) rows));
      [reflexivity|].
    apply lookup_insert_ne, Hkey.
Qed.

Lemma load_stats_last (rows : list StatsRow) key :
  fold_left (λ stats row, <[PyStr.strip (row_name row) := record_of row]> stats)
            (all_situations rows) (∅ : gmap string R) !! key
  = record_of <$> last (rows_of_key key rows).
Proof.
  rewrite fold_stats_last, lookup_empty.
  unfold all_situations, rows_of_key. rewrite list_filter_filter.
  erewrite (list_filter_iff _ (λ row, row_situation row = "all"
                                      ∧ PyStr.strip (row_name row) = key));
    [|intros row; tauto].
  destruct (last _); reflexivity.
Qed.

End LastRowWins.

(** X25: in both statistics loaders the record stored under a name comes
    from the last row of the sheet with situation "all" and that name
    (stripped); rows of other situations never count, and a name with no
    such row has no record. *)
Theorem stats_last_row_wins rows key :
  load_skater_stats rows !! key = skater_record_of <$> last (rows_of_key key rows)
  ∧ load_goalie_stats rows !! key = goalie_record_of <$> last (rows_of_key key rows).
Proof. split; apply load_stats_last. Qed.

(** ** The order of the standings with a NaN total *)

(** A list of two or more standings in descending order holds no NaN total:
    no comparison with a NaN holds. *)
Lemma descending_not_nan standings :
  descending standings → (2 <= length standings)%nat →
  Forall (λ s, PrimFloat.is_nan (proj_total s) = false) standings.
Proof.
  assert (Hnan : ∀ x y, PrimFloat.leb x y = true →
                        PrimFloat.is_nan x = false ∧ PrimFloat.is_nan y = false).
  { intros x y Hle. rewrite FloatAxioms.leb_spec in Hle.
    apply SFleb_not_nan in Hle as [Hx Hy].
    split; [destruct (PrimFloat.is_nan x) eqn:E | destruct (PrimFloat.is_nan y) eqn:E];
      try reflexivity; apply float_is_nan_true in E; contradiction. }
  unfold descending. induction 1 as [|a l Hsorted IH Hhd]; intros Hlen; [constructor|].
  destruct Hhd as [|b l' Hle]; [cbn in Hlen; lia|].
  apply Hnan in Hle as [Hb Ha]. constructor; [exact Ha|].
  destruct l' as [|c l']; [constructor; [exact Hb|constructor]|].
  apply IH. cbn [length]. lia.
Qed.

(** C9: [compute_standings] does not keep the order it promises ("sorted
    desc by proj_total") when a projected total is a NaN.  On the three
    sheet rows of the example, read by the loaders, the skater with the
    blank games-played cell passes the guard [gp <= 0] and gives team BOT a
    NaN total.  With the teams iterated as GVR, BOT, LPT the sort moves
    nothing and the result ranks GVR with 5.0 above LPT with 9.0; and in
    whatever order the teams are iterated the result is not in descending
    order of [proj_total]. *)
Theorem compute_standings_unsorted_on_nan
    (extractOne : string → list string → option (string * Z)) :
  ∃ projections,
    project_all_players (load_fchl_roster nan_roster_rows)
      (build_player_lookup extractOne (load_fchl_roster nan_roster_rows)
         (load_skater_stats nan_skater_rows) ∅)
      (load_skater_stats nan_skater_rows) ∅ nan_schedule
    = Ok projections
    ∧ ["GVR"; "BOT"; "LPT"] ≡ₚ elements (teams_of projections ∪ dom (∅ : gmap string Z))
    ∧ compute_standings (λ _, ["GVR"; "BOT"; "LPT"]) projections ∅
      = [mkStanding "GVR" 0 5 5; mkStanding "BOT" 0 nan nan; mkStanding "LPT" 0 9 9]
    ∧ (∀ set_iter, (∀ X, set_iter X ≡ₚ elements X) →
         ¬ standings_sorted set_iter projections ∅).
Proof.
  eexists. split; [vm_compute; reflexivity|].
  match goal with |- _ ≡ₚ elements (teams_of ?ps ∪ _) ∧ _ => set (projections := ps) end.
  assert (Hteams : elements (teams_of projections ∪ dom (∅ : gmap string Z))
                   = ["GVR"; "BOT"; "LPT"]) by (vm_compute; reflexivity).
  split; [rewrite Hteams; reflexivity|].
  split; [vm_compute; reflexivity|].
  intros set_iter Hiter Hsorted. unfold standings_sorted in Hsorted.
  pose proof (compute_standings_teams set_iter projections ∅) as Hperm.
  rewrite (Hiter _), Hteams in Hperm.
  apply descending_not_nan in Hsorted;
    [|apply Permutation_length in Hperm; rewrite length_fmap in Hperm;
      rewrite Hperm; cbn [length]; lia].
  assert (Hin : "BOT" ∈ ts_fchl_team <$> compute_standings set_iter projections ∅).
  { rewrite Hperm. apply list_elem_of_further, list_elem_of_here. }
  apply list_elem_of_fmap in Hin as (s & Hteam & Hs).
  rewrite Forall_forall in Hsorted. specialize (Hsorted s Hs).
  rewrite (compute_standings_entry _ _ _ _ Hs), <- Hteam in Hsorted.
  vm_compute in Hsorted. discriminate.
Qed.
